(** * Mafia Duel: the client-side commitment service and the last-event panel

    A shallow embedding of
    - [zkActionService.ts] in its two revisions (Poseidon and SHA-256):
      [zkCommit], [zkVerify], [sha256Commitment], [loadAll], [saveAll],
      [getStoredCommitment], [targetLabel];
    - the [MafiaError] tables of the two generated [bindings.ts] revisions;
    - the [LastEvent] panel of [MafiaDuelGame.tsx] in its plaintext and its
      commit-reveal revision.

    JavaScript values are modelled as follows.  A [bigint] is a [Z].  A
    [number] that the code keeps, compares or stores is an integral Number
    and is a [Z]; where a function receives a [number] from outside and
    converts it ([BigInt(target)], [target >>> 0]) the argument has type
    [number], which also covers fractions, NaN and the infinities.  A string
    is a [string]; non-ASCII literals are their UTF-8 bytes, and the strings
    the code slices (addresses) are ASCII.  A computation that may throw (or
    a promise that may reject) returns a [completion].

    What the platform provides is a parameter: [poseidon2] of poseidon-lite,
    [crypto.subtle.digest] and [String.prototype.toLowerCase] are section
    variables, the random bytes and the clock are arguments, and
    [localStorage] is the item under [STORAGE_KEY], passed in and out.
    [Sha256Revision.webcrypto_digest] is the digest of a browser that has
    Web Crypto: SHA-256 as FIPS 180-4 defines it. *)

From Stdlib Require Import ZArith List String Ascii Bool Lia Arith.
From Stdlib Require Import DecimalString.
Import ListNotations.

#[local] Open Scope string_scope.
#[local] Open Scope list_scope.
#[local] Open Scope Z_scope.

(* ------------------------------------------------------------------ *)
(** * JavaScript values and completions *)

Module JS.

Inductive error : Set :=
| TypeError
| RangeError
| SyntaxError.

(** The outcome of evaluating an expression or awaiting a promise. *)
Inductive completion (A : Type) : Type :=
| Normal (a : A)
| Throw (e : error).

Arguments Normal {A} a.
Arguments Throw {A} e.

Definition bind {A B} (c : completion A) (k : A -> completion B) : completion B :=
  match c with
  | Normal a => k a
  | Throw e => Throw e
  end.

(** [try { body } catch { handler }] *)
Definition try_catch {A} (body : completion A) (handler : A) : completion A :=
  match body with
  | Normal a => Normal a
  | Throw _ => Normal handler
  end.

(** A Number as a conversion sees it. *)
Inductive number : Set :=
| Int (z : Z)            (* an integral Number *)
| Frac (truncated : Z)   (* a finite Number with a fractional part *)
| NaNOrInfinity.

(** [BigInt(x)] of a Number: a RangeError unless [x] is integral. *)
Definition BigInt (x : number) : completion Z :=
  match x with
  | Int z => Normal z
  | Frac _ | NaNOrInfinity => Throw RangeError
  end.

(** [x >>> 0], that is ToUint32. *)
Definition ToUint32 (x : number) : Z :=
  match x with
  | Int z | Frac z => z mod 2 ^ 32
  | NaNOrInfinity => 0
  end.

(** ** Strings *)

Fixpoint all_chars (p : ascii -> bool) (s : string) : bool :=
  match s with
  | EmptyString => true
  | String c s' => p c && all_chars p s'
  end.

Fixpoint repeat_char (c : ascii) (n : nat) : string :=
  match n with
  | O => EmptyString
  | S n' => String c (repeat_char c n')
  end.

(** [s.padStart(targetLength, c)] for a one-character filler. *)
Definition padStart (s : string) (targetLength : nat) (c : ascii) : string :=
  append (repeat_char c (targetLength - String.length s)) s.

(** [s.slice(0, n)] and [s.slice(-n)]. *)
Definition slice_front (s : string) (n : nat) : string := substring 0 n s.
Definition slice_back (s : string) (n : nat) : string :=
  substring (String.length s - n) n s.

(** [parts.join('')] *)
Definition join (parts : list string) : string :=
  fold_right append EmptyString parts.

Definition hexDigit (d : Z) : ascii :=
  match d with
  | 0 => "0" | 1 => "1" | 2 => "2" | 3 => "3" | 4 => "4"
  | 5 => "5" | 6 => "6" | 7 => "7" | 8 => "8" | 9 => "9"
  | 10 => "a" | 11 => "b" | 12 => "c" | 13 => "d" | 14 => "e"
  | _ => "f"
  end%char.

Definition isLowerHex (c : ascii) : bool :=
  let n := N_of_ascii c in
  ((48 <=? n) && (n <=? 57) || (97 <=? n) && (n <=? 102))%N.

(** Number of base-16 digits of a positive integer. *)
Definition hexLength (z : Z) : nat := Z.to_nat (Z.log2 z / 4 + 1).

Definition hexDigits (z : Z) (n : nat) : string :=
  string_of_list_ascii
    (map (fun i => hexDigit (Z.shiftr z (4 * Z.of_nat i) mod 16)) (rev (seq 0 n))).

(** [z.toString(16)] of a bigint or of an integral Number: no prefix,
    lowercase digits, no leading zero, a minus sign for negatives. *)
Definition toString16 (z : Z) : string :=
  match z with
  | Z0 => "0"
  | Zpos _ => hexDigits z (hexLength z)
  | Zneg p => String "-" (hexDigits (Zpos p) (hexLength (Zpos p)))
  end.

(** [String(z)] / template interpolation of an integer. *)
Definition toString10 (z : Z) : string := NilZero.string_of_int (Z.to_int z).

(** Value of a string of hexadecimal digits, most significant first;
    the inverse of [toString16] used to compare commitments as numbers. *)
Definition hexValue (c : ascii) : Z :=
  let n := Z.of_N (N_of_ascii c) in
  if (48 <=? n) && (n <=? 57) then n - 48
  else if (97 <=? n) && (n <=? 102) then n - 87
  else 0.

Fixpoint parseHex (s : string) (acc : Z) : Z :=
  match s with
  | EmptyString => acc
  | String c s' => parseHex s' (16 * acc + hexValue c)
  end.

End JS.

Import JS.

Notation "x <- c ;; k" := (JS.bind c (fun x => k))
  (at level 61, c at next level, right associativity).

(* ------------------------------------------------------------------ *)
(** * SHA-256

    [crypto.subtle.digest('SHA-256', buf)] is a service of the platform; its
    result is the FIPS 180-4 function below, on byte lists. *)

Module SHA256.

Definition w32 (x : Z) : Z := x mod 2 ^ 32.
Definition add32 (x y : Z) : Z := w32 (x + y).

Definition ROTR (n x : Z) : Z := Z.lor (Z.shiftr x n) (w32 (Z.shiftl x (32 - n))).
Definition SHR (n x : Z) : Z := Z.shiftr x n.
Definition xor3 (x y z : Z) : Z := Z.lxor (Z.lxor x y) z.

Definition Ch (x y z : Z) : Z :=
  Z.lxor (Z.land x y) (Z.land (Z.lxor x (2 ^ 32 - 1)) z).
Definition Maj (x y z : Z) : Z :=
  xor3 (Z.land x y) (Z.land x z) (Z.land y z).
Definition Sigma0 (x : Z) : Z := xor3 (ROTR 2 x) (ROTR 13 x) (ROTR 22 x).
Definition Sigma1 (x : Z) : Z := xor3 (ROTR 6 x) (ROTR 11 x) (ROTR 25 x).
Definition sigma0 (x : Z) : Z := xor3 (ROTR 7 x) (ROTR 18 x) (SHR 3 x).
Definition sigma1 (x : Z) : Z := xor3 (ROTR 17 x) (ROTR 19 x) (SHR 10 x).

Definition primes64 : list Z :=
  [2; 3; 5; 7; 11; 13; 17; 19; 23; 29; 31; 37; 41; 43; 47; 53;
   59; 61; 67; 71; 73; 79; 83; 89; 97; 101; 103; 107; 109; 113; 127; 131;
   137; 139; 149; 151; 157; 163; 167; 173; 179; 181; 191; 193; 197; 199; 211; 223;
   227; 229; 233; 239; 241; 251; 257; 263; 269; 271; 277; 281; 283; 293; 307; 311].

(** Integer cube root, one result bit at a time from the top. *)
Fixpoint cbrt_bits (bits : nat) (n r : Z) : Z :=
  match bits with
  | O => r
  | S b =>
      let c := r + 2 ^ Z.of_nat b in
      cbrt_bits b n (if c * c * c <=? n then c else r)
  end.

(** Round constants: the first 32 bits of the fractional parts of the cube
    roots of the first 64 primes. *)
Definition K : list Z :=
  Eval vm_compute in map (fun p => w32 (cbrt_bits 40 (p * 2 ^ 96) 0)) primes64.

(** Initial hash value: the same of the square roots of the first 8 primes. *)
Record hash : Set := mkHash
  { h0 : Z; h1 : Z; h2 : Z; h3 : Z; h4 : Z; h5 : Z; h6 : Z; h7 : Z }.

Definition frac_sqrt (p : Z) : Z := w32 (Z.sqrt (p * 2 ^ 64)).

Definition H0 : hash :=
  Eval vm_compute in
    mkHash (frac_sqrt 2) (frac_sqrt 3) (frac_sqrt 5) (frac_sqrt 7)
           (frac_sqrt 11) (frac_sqrt 13) (frac_sqrt 17) (frac_sqrt 19).

Definition be32 (x : Z) : list Z :=
  [Z.shiftr x 24 mod 256; Z.shiftr x 16 mod 256; Z.shiftr x 8 mod 256; x mod 256].

Definition be64 (x : Z) : list Z := be32 (Z.shiftr x 32) ++ be32 x.

(** Padding: a 1 bit, zeros up to 56 modulo 64 bytes, the bit length. *)
Definition pad (msg : list Z) : list Z :=
  let len := Z.of_nat (List.length msg) in
  msg ++ [128] ++ repeat 0 (Z.to_nat ((55 - len) mod 64)) ++ be64 (8 * len).

Fixpoint words_of_bytes (l : list Z) : list Z :=
  match l with
  | b0 :: b1 :: b2 :: b3 :: rest =>
      (((b0 * 256 + b1) * 256 + b2) * 256 + b3) :: words_of_bytes rest
  | _ => []
  end.

Fixpoint blocks_of (n : nat) (ws : list Z) : list (list Z) :=
  match n with
  | O => []
  | S n' => firstn 16 ws :: blocks_of n' (skipn 16 ws)
  end.

(** Message schedule: 48 further words after the 16 of the block. *)
Definition extend (W : list Z) : list Z :=
  let back i := nth (List.length W - i) W 0 in
  W ++ [w32 (sigma1 (back 2%nat) + back 7%nat + sigma0 (back 15%nat) + back 16%nat)].

Definition schedule (block : list Z) : list Z := Nat.iter 48 extend block.

Definition round (s : hash) (kw : Z * Z) : hash :=
  let '(k, w) := kw in
  let T1 := w32 (h7 s + Sigma1 (h4 s) + Ch (h4 s) (h5 s) (h6 s) + k + w) in
  let T2 := w32 (Sigma0 (h0 s) + Maj (h0 s) (h1 s) (h2 s)) in
  mkHash (add32 T1 T2) (h0 s) (h1 s) (h2 s) (add32 (h3 s) T1) (h4 s) (h5 s) (h6 s).

Definition compress (H : hash) (block : list Z) : hash :=
  let s := fold_left round (combine K (schedule block)) H in
  mkHash (add32 (h0 H) (h0 s)) (add32 (h1 H) (h1 s)) (add32 (h2 H) (h2 s))
         (add32 (h3 H) (h3 s)) (add32 (h4 H) (h4 s)) (add32 (h5 H) (h5 s))
         (add32 (h6 H) (h6 s)) (add32 (h7 H) (h7 s)).

Definition output (H : hash) : list Z :=
  be32 (h0 H) ++ be32 (h1 H) ++ be32 (h2 H) ++ be32 (h3 H) ++
  be32 (h4 H) ++ be32 (h5 H) ++ be32 (h6 H) ++ be32 (h7 H).

Definition digest (msg : list Z) : list Z :=
  let ws := words_of_bytes (pad msg) in
  output (fold_left compress (blocks_of (List.length ws / 16) ws) H0).

End SHA256.

(** The bytes of an ASCII string. *)
Definition bytesOfString (s : string) : list Z :=
  map (fun c => Z.of_N (N_of_ascii c)) (list_ascii_of_string s).

(** Bytes as lowercase hexadecimal, two digits each, the way
    [sha256Commitment] prints the digest. *)
Definition hexOfBytes (bytes : list Z) : string :=
  join (map (fun b => padStart (toString16 b) 2 "0"%char) bytes).

(* ------------------------------------------------------------------ *)
(** * The commitment record and the browser store *)

(** A nonce as a JavaScript value.  [JSON.parse] never yields a bigint: a
    stored nonce comes back as the decimal string that was written. *)
Inductive nonceRepr : Set :=
| AsBigInt (n : Z)     (* the bigint [n] *)
| AsDecimal (n : Z).   (* the string [n.toString()] *)

(** [BigInt(c.nonce)] *)
Definition nonceValue (r : nonceRepr) : Z :=
  match r with
  | AsBigInt n | AsDecimal n => n
  end.

Record ZkCommitment : Set := mkZkCommitment
  { commitment : string;
    nonce : nonceRepr;
    target : Z;
    sessionId : Z;
    round : Z;
    phase : Z;
    createdAt : string }.

(** The value of [localStorage] under [STORAGE_KEY]. *)
Inductive storageItem : Set :=
| NoItem                                (* [getItem] returns null *)
| BadItem                               (* text [JSON.parse] or [loadAll] rejects *)
| JsonItem (items : list ZkCommitment). (* the JSON text of an array of entries *)

Definition isBigInt (r : nonceRepr) : bool :=
  match r with
  | AsBigInt _ => true
  | AsDecimal _ => false
  end.

(** [JSON.stringify(items)]: a TypeError as soon as a bigint is met (the
    SHA-256 revision says as much where it installs its replacer).  The
    result stands for the text that [setItem] then stores; storing itself
    is taken to succeed. *)
Definition JSON_stringify (items : list ZkCommitment) : completion storageItem :=
  if existsb (fun c => isBigInt (nonce c)) items
  then Throw TypeError
  else Normal (JsonItem items).

(** [JSON.stringify(items, replacer)] with the replacer of the SHA-256
    revision, which turns every bigint into its decimal string. *)
Definition replaceBigInt (c : ZkCommitment) : ZkCommitment :=
  mkZkCommitment (commitment c) (AsDecimal (nonceValue (nonce c))) (target c)
                 (sessionId c) (round c) (phase c) (createdAt c).

Definition JSON_stringify_replacing (items : list ZkCommitment) : storageItem :=
  JsonItem (map replaceBigInt items).

(** [items.slice(-n)] *)
Definition slice_last {A} (n : nat) (items : list A) : list A :=
  skipn (List.length items - n) items.

(** [for (const byte of rawBytes) nonce = (nonce << 8n) | BigInt(byte)] *)
Definition nonceOfBytes (rawBytes : list Z) : Z :=
  fold_left (fun nonce byte => Z.lor (Z.shiftl nonce 8) byte) rawBytes 0.

Definition sameKey (sid rnd ph : Z) (c : ZkCommitment) : bool :=
  (sessionId c =? sid) && (round c =? rnd) && (phase c =? ph).

Definition PASS_TARGET : Z := 4294967295.

(** [targetLabel(target, slotNames)] *)
Definition targetLabel (target : Z) (slotNames : list string) : string :=
  if target =? 4294967295 then "Pass / Abstain"
  else
    match (if target <? 0 then None else nth_error slotNames (Z.to_nat target)) with
    | Some name => name
    | None => append "Slot #" (toString10 target)
    end.

(* ------------------------------------------------------------------ *)
(** * zkActionService.ts, Poseidon revision *)

Module PoseidonRevision.

Definition SNARK_FIELD_SIZE : Z :=
  21888242871839275222246405745257275088548364400416034343698204186575808495617.

(** ['0x' + hashBigInt.toString(16).padStart(64, '0')] *)
Definition commitmentHex (hashBigInt : Z) : string :=
  append "0x" (padStart (toString16 hashBigInt) 64 "0"%char).

Definition loadAll (st : storageItem) : list ZkCommitment :=
  match st with
  | JsonItem items => items
  | NoItem | BadItem => []
  end.

Definition saveAll (items : list ZkCommitment) : completion storageItem :=
  JSON_stringify (slice_last 50 items).

Section Platform.

(** [poseidon2] of the package poseidon-lite, and [String.prototype.toLowerCase]. *)
Variable poseidon2 : list Z -> completion Z.
Variable toLowerCase : string -> string.

(** [rawBytes] is what [crypto.getRandomValues(new Uint8Array(16))] returned,
    [now] is [new Date().toISOString()], [st] the store before the call. *)
Definition zkCommit (rawBytes : list Z) (now : string) (st : storageItem)
    (target sessionId round phase : Z) : completion (ZkCommitment * storageItem) :=
  let nonce := nonceOfBytes rawBytes in
  let nonce := Z.rem nonce SNARK_FIELD_SIZE in
  t <- BigInt (Int target) ;;
  hashBigInt <- poseidon2 [t; nonce] ;;
  let commitment := commitmentHex hashBigInt in
  let entry :=
    mkZkCommitment commitment (AsBigInt nonce) target sessionId round phase now in
  let all := loadAll st in
  st' <- saveAll (all ++ [entry]) ;;
  Normal (entry, st').

Definition zkVerify (commitment : string) (target : number) (nonce : Z)
  : completion bool :=
  try_catch
    (t <- BigInt target ;;
     recomputed <- poseidon2 [t; nonce] ;;
     let recomputedHex := commitmentHex recomputed in
     Normal (String.eqb (toLowerCase recomputedHex) (toLowerCase commitment)))
    false.

(** The commitment of [(target, nonce)], as [zkCommit] (lines 89-90) and
    [zkVerify] (lines 119-120) both compute it. *)
Definition commitmentOf (target : number) (nonce : Z) : completion string :=
  t <- BigInt target ;;
  hashBigInt <- poseidon2 [t; nonce] ;;
  Normal (commitmentHex hashBigInt).

End Platform.

End PoseidonRevision.

(* ------------------------------------------------------------------ *)
(** * zkActionService.ts, SHA-256 revision *)

Module Sha256Revision.

(** [new ArrayBuffer(n)] *)
Definition ArrayBuffer (n : nat) : list Z := repeat 0 n.

(** [view.setUint32(byteOffset, value, false)]: a RangeError when the four
    bytes do not fit, else the value modulo 2^32, most significant byte first. *)
Definition setUint32 (view : list Z) (byteOffset : nat) (value : Z)
  : completion (list Z) :=
  if (byteOffset + 4 <=? List.length view)%nat then
    Normal (firstn byteOffset view ++ SHA256.be32 (value mod 2 ^ 32)
              ++ skipn (byteOffset + 4) view)
  else Throw RangeError.

Definition loadAll (st : storageItem) : list ZkCommitment :=
  match st with
  | JsonItem raw =>
      map (fun c => mkZkCommitment (commitment c) (AsBigInt (nonceValue (nonce c)))
                      (target c) (sessionId c) (round c) (phase c) (createdAt c)) raw
  | NoItem | BadItem => []
  end.

Definition saveAll (items : list ZkCommitment) : storageItem :=
  JSON_stringify_replacing (slice_last 50 items).

Fixpoint scanBack (sid rnd ph : Z) (all : list ZkCommitment) (k : nat)
  : option ZkCommitment :=
  match k with
  | O => None
  | S i =>
      match nth_error all i with
      | Some c => if sameKey sid rnd ph c then Some c else scanBack sid rnd ph all i
      | None => scanBack sid rnd ph all i
      end
  end.

Definition getStoredCommitment (st : storageItem) (sid rnd ph : Z)
  : option ZkCommitment :=
  let all := loadAll st in
  scanBack sid rnd ph all (List.length all).

Section Platform.

(** [crypto.subtle.digest('SHA-256', buf)], awaited, and
    [String.prototype.toLowerCase]. *)
Variable subtle_digest : list Z -> completion (list Z).
Variable toLowerCase : string -> string.

Definition sha256Commitment (target : number) (nonce : Z) : completion string :=
  let buf := ArrayBuffer 12 in
  view <- setUint32 buf 0 (ToUint32 target) ;;
  let hi := Z.land (Z.shiftr nonce 32) 4294967295 in
  let lo := Z.land nonce 4294967295 in
  view <- setUint32 view 4 hi ;;
  view <- setUint32 view 8 lo ;;
  digest <- subtle_digest view ;;
  Normal (append "0x"
            (join (map (fun b => padStart (toString16 b) 2 "0"%char) digest))).

(** [rawBytes] is what [crypto.getRandomValues(new Uint8Array(8))] returned. *)
Definition zkCommit (rawBytes : list Z) (now : string) (st : storageItem)
    (target sessionId round phase : Z) : completion (ZkCommitment * storageItem) :=
  let nonce := nonceOfBytes rawBytes in
  commitment <- sha256Commitment (Int target) nonce ;;
  let entry :=
    mkZkCommitment commitment (AsBigInt nonce) target sessionId round phase now in
  let all := loadAll st in
  let st' := saveAll (all ++ [entry]) in
  Normal (entry, st').

Definition zkVerify (commitment : string) (target : number) (nonce : Z)
  : completion bool :=
  try_catch
    (recomputed <- sha256Commitment target nonce ;;
     Normal (String.eqb (toLowerCase recomputed) (toLowerCase commitment)))
    false.

End Platform.

(** The platform at work: the digest resolves with SHA-256 of the buffer. *)
Definition webcrypto_digest (buf : list Z) : completion (list Z) :=
  Normal (SHA256.digest buf).

End Sha256Revision.

(** ASCII lower-casing, which is [toLowerCase] on ASCII strings. *)
Definition asciiLower (c : ascii) : ascii :=
  let n := N_of_ascii c in
  if ((65 <=? n) && (n <=? 90))%N then ascii_of_N (n + 32) else c.

Fixpoint asciiToLowerCase (s : string) : string :=
  match s with
  | EmptyString => EmptyString
  | String c s' => String (asciiLower c) (asciiToLowerCase s')
  end.

(* ------------------------------------------------------------------ *)
(** * bindings.ts: the error table and the game state *)

(** [MafiaError] of the plaintext contract's bindings. *)
Module PlaintextBindings.

Definition MafiaError : list (Z * string) :=
  [ (1, "GameNotFound"); (2, "GameFull"); (3, "AlreadyJoined"); (4, "NotInGame");
    (5, "WrongPhase"); (6, "AlreadyActed"); (7, "InvalidTarget"); (8, "NotAlive");
    (9, "GameAlreadyOver"); (10, "NotCreator"); (11, "SessionExists") ].

(** The methods of its [Client]. *)
Definition methods : list string :=
  [ "get_hub"; "resolve"; "set_hub"; "upgrade"; "get_game"; "get_admin";
    "join_game"; "set_admin"; "begin_game"; "create_game"; "submit_action" ].

End PlaintextBindings.

(** [MafiaError] of the commit-reveal contract's bindings. *)
Module CommitRevealBindings.

Definition MafiaError : list (Z * string) :=
  [ (1, "GameNotFound"); (2, "GameFull"); (3, "AlreadyJoined"); (4, "NotInGame");
    (5, "WrongPhase"); (6, "AlreadyActed"); (7, "InvalidTarget"); (8, "NotAlive");
    (9, "GameAlreadyOver"); (10, "NotCreator"); (11, "SessionExists");
    (12, "InvalidReveal"); (13, "NoCommitment") ].

(** The methods of its [Client]. *)
Definition methods : list string :=
  [ "get_hub"; "resolve"; "set_hub"; "upgrade"; "get_game"; "get_admin";
    "join_game"; "set_admin"; "begin_game"; "create_game"; "reveal_action";
    "submit_action"; "submit_commitment" ].

End CommitRevealBindings.

(** Every revision of the generated bindings in the repository. *)
Definition bindingsRevisions : list (list (Z * string)) :=
  [ PlaintextBindings.MafiaError; CommitRevealBindings.MafiaError ].

Definition hasMethod (methods : list string) (name : string) : bool :=
  existsb (String.eqb name) methods.

(** [MafiaError[code]?.message] *)
Fixpoint errorMessage (table : list (Z * string)) (code : Z) : option string :=
  match table with
  | [] => None
  | (c, m) :: rest => if c =? code then Some m else errorMessage rest code
  end.

(** The error taxonomy in the words of the specification. *)
Definition specErrorTaxonomy : list string :=
  [ "GameNotFound"; "GameFull"; "AlreadyJoined"; "NotInGame"; "WrongPhase";
    "AlreadyActed"; "InvalidTarget"; "NotAlive"; "GameAlreadyOver"; "NotCreator";
    "SessionExists"; "InvalidReveal"; "NoCommitment" ].

Record Slot : Set := mkSlot
  { action : option Z;
    addr : option string;
    alive : bool;
    slot_commitment : option (list Z);
    role : Z;
    submitted : bool }.

Record Game : Set := mkGame
  { creator : string;
    day : Z;
    human_count : Z;
    invest_is_mafia : bool;
    last_investigated : option Z;
    last_killed : option Z;
    last_saved : bool;
    last_voted_out : option Z;
    game_phase : Z;
    slots : list Slot;
    wager : Z;
    winner : option Z }.

(* ------------------------------------------------------------------ *)
(** * MafiaDuelGame.tsx: the last-event panel *)

Module GameView.

Definition ROLE_MAFIA : Z := 0.
Definition ROLE_VILLAGER : Z := 1.
Definition ROLE_DOCTOR : Z := 2.
Definition ROLE_SHERIFF : Z := 3.

Definition PHASE_NIGHT_COMMIT : Z := 1.

Record roleMeta : Set := mkRoleMeta { icon : string; label : string }.

(** [ROLE_META[role]], undefined off the four roles. *)
Definition ROLE_META (role : Z) : option roleMeta :=
  match role with
  | 0 => Some (mkRoleMeta "🔪" "Mafia")
  | 1 => Some (mkRoleMeta "👤" "Villager")
  | 2 => Some (mkRoleMeta "💊" "Doctor")
  | 3 => Some (mkRoleMeta "⭐" "Sheriff")
  | _ => None
  end.

(** [a.slice(0, 6) + '…' + a.slice(-4)] *)
Definition shortAddr (a : string) : string :=
  append (slice_front a 6) (append "…" (slice_back a 4)).

(** [sl.addr ? shortAddr(sl.addr) : `AI Bot #${i + 1}`]; the empty string is falsy. *)
Definition slotName (sl : Slot) (i : Z) : string :=
  match addr sl with
  | Some a => if String.eqb a "" then append "AI Bot #" (toString10 (i + 1)) else shortAddr a
  | None => append "AI Bot #" (toString10 (i + 1))
  end.

(** [game.slots[i]] for an index read from the game state. *)
Definition slotAt (game : Game) (i : Z) : option Slot :=
  if i <? 0 then None else nth_error (slots game) (Z.to_nat i).

(** One line of the panel. *)
Record line : Set := mkLine { line_icon : string; line_text : string }.

(** What the component returns: null, or the panel listing [lines]. *)
Definition panel (lines : list line) : option (list line) :=
  match lines with
  | [] => None
  | _ => Some lines
  end.

Definition dquote : string := String (ascii_of_N 34) EmptyString.

(** ** Plaintext revision *)
Module Plaintext.

Definition killedLine (game : Game) : completion (list line) :=
  match last_killed game with
  | Some k =>
      match slotAt game k with
      | Some sl =>
          let who := slotName sl k in
          Normal [ if last_saved game
                   then mkLine "🛡" (append who " was attacked — Doctor saved them!")
                   else mkLine "💀" (append who " was eliminated by the Mafia.") ]
      | None => Throw TypeError
      end
  | None => Normal []
  end.

Definition investigatedLine (game : Game) : completion (list line) :=
  match last_investigated game with
  | Some k =>
      match slotAt game k with
      | Some sl =>
          Normal [ mkLine "🔍"
                     (join [ "Sheriff investigated "; slotName sl k; ": ";
                             if invest_is_mafia game then "⚠️ IS Mafia!"
                             else "✅ Town member." ]) ]
      | None => Throw TypeError
      end
  | None => Normal []
  end.

Definition votedOutLine (game : Game) : completion (list line) :=
  match last_voted_out game with
  | Some k =>
      match slotAt game k with
      | Some sl =>
          match ROLE_META (role sl) with
          | Some rm =>
              Normal [ mkLine "🗳"
                         (join [ "Town voted out "; slotName sl k; " — they were ";
                                 icon rm; " "; label rm; "!" ]) ]
          | None => Throw TypeError
          end
      | None => Throw TypeError
      end
  | None => Normal []
  end.

Definition LastEvent (game : option Game) : completion (option (list line)) :=
  match game with
  | None => Normal None
  | Some game =>
      l1 <- killedLine game ;;
      l2 <- investigatedLine game ;;
      l3 <- votedOutLine game ;;
      Normal (panel (l1 ++ l2 ++ l3))
  end.

End Plaintext.

(** ** Commit-reveal revision *)
Module CommitReveal.

(** [game.slots.findIndex(sl => sl.addr === userAddress)], then [game.slots[myIdx]]. *)
Definition me (game : option Game) (userAddress : string) : option Slot :=
  match game with
  | Some game =>
      find (fun sl => match addr sl with
                      | Some a => String.eqb a userAddress
                      | None => false
                      end) (slots game)
  | None => None
  end.

(** [me?.role === ROLE_SHERIFF] *)
Definition isSheriff (game : option Game) (userAddress : string) : bool :=
  match me game userAddress with
  | Some sl => role sl =? ROLE_SHERIFF
  | None => false
  end.

Definition killedLine (game : Game) : list line :=
  match last_killed game with
  | Some k =>
      match slotAt game k with
      | Some killed =>
          [ if last_saved game
            then mkLine "🛡️" (append (slotName killed k) " was attacked — Doctor saved them!")
            else mkLine "💀" (append (slotName killed k) " was eliminated by the Mafia.") ]
      | None => []
      end
  | None => []
  end.

Definition votedOutLine (game : Game) : completion (list line) :=
  match last_voted_out game with
  | Some k =>
      match slotAt game k with
      | Some voted =>
          match ROLE_META (role voted) with
          | Some rm2 =>
              Normal [ mkLine "🗳️"
                         (join [ "Town voted out "; slotName voted k; " — they were ";
                                 icon rm2; " "; label rm2; "!" ]) ]
          | None => Throw TypeError
          end
      | None => Normal []
      end
  | None => Normal []
  end.

Definition investigatedLine (sheriff : bool) (game : Game) : list line :=
  if sheriff then
    match last_investigated game with
    | Some k =>
        match slotAt game k with
        | Some investigated =>
            [ mkLine "🔍"
                (join [ "[Sheriff] You investigated "; slotName investigated k; ": ";
                        if invest_is_mafia game then "⚠️ IS Mafia!"
                        else "✅ Town member." ]) ]
        | None => []
        end
    | None => []
    end
  else [].

(** [slotName] over [game.slots.map((sl, i) => ...)] *)
Fixpoint slotNamesFrom (i : Z) (sls : list Slot) : list string :=
  match sls with
  | [] => []
  | sl :: rest => slotName sl i :: slotNamesFrom (i + 1) rest
  end.

Definition zkLine (st : storageItem) (sid : option Z) (game : Game) : list line :=
  if (game_phase game =? PHASE_NIGHT_COMMIT) && (1 <? day game) then
    let prevRound := day game - 1 in
    match sid with
    | Some sid =>
        match Sha256Revision.getStoredCommitment st sid prevRound PHASE_NIGHT_COMMIT with
        | Some storedProof =>
            let slotNames := slotNamesFrom 0 (slots game) in
            [ mkLine "🔐"
                (join [ "Your ZK commitment from last night was for "; dquote;
                        targetLabel (target storedProof) slotNames; dquote;
                        " — sha256 verified onchain ✅" ]) ]
        | None => []
        end
    | None => []
    end
  else [].

(** [st] is the browser store the panel reads, [sid] the session in view. *)
Definition LastEvent (st : storageItem) (sid : option Z) (userAddress : string)
    (game : option Game) : completion (option (list line)) :=
  match game with
  | None => Normal None
  | Some g =>
      let sheriff := isSheriff game userAddress in
      let l1 := killedLine g in
      l2 <- votedOutLine g ;;
      let l3 := investigatedLine sheriff g in
      let l4 := zkLine st sid g in
      Normal (panel (l1 ++ l2 ++ l3 ++ l4))
  end.

End CommitReveal.

End GameView.

(* ------------------------------------------------------------------ *)
(** * The specification's commitment, in its own words *)

Module Spec.

(** [v] on [width] bytes, most significant byte first. *)
Definition bigEndian (width : nat) (v : Z) : list Z :=
  map (fun i => (v / 256 ^ Z.of_nat i) mod 256) (rev (seq 0 width)).

(** bytes[0..4] = target as uint32, bytes[4..12] = nonce as uint64. *)
Definition preimage (target nonce : Z) : list Z :=
  bigEndian 4 target ++ bigEndian 8 nonce.

(** Two lowercase hexadecimal digits per byte. *)
Definition lowerHexByte (b : Z) : string :=
  String (hexDigit (b / 16)) (String (hexDigit (b mod 16)) EmptyString).

Definition lowerHex (bytes : list Z) : string := join (map lowerHexByte bytes).

(** The digest of the twelve bytes as lowercase hex, [0x]-prefixed. *)
Definition commit (target nonce : Z) : string :=
  append "0x" (lowerHex (SHA256.digest (preimage target nonce))).

(** ["0x"] followed by exactly 64 lowercase hexadecimal characters. *)
Definition wellFormed (c : string) : Prop :=
  exists body, c = append "0x" body /\
               String.length body = 64%nat /\ all_chars isLowerHex body = true.

End Spec.

(** * A run of [zkCommit] calls against the browser store *)

(** An entry as the program holds it in memory: its nonce is a bigint. *)
Definition inMemory (c : ZkCommitment) : Prop := isBigInt (nonce c) = true.

Record commitCall : Set := mkCall
  { call_rawBytes : list Z;
    call_now : string;
    call_target : Z;
    call_sessionId : Z;
    call_round : Z;
    call_phase : Z }.

(** The entries returned, in call order, and the store left behind. *)
Fixpoint runCommits (subtle_digest : list Z -> completion (list Z))
    (st : storageItem) (calls : list commitCall)
  : completion (list ZkCommitment * storageItem) :=
  match calls with
  | [] => Normal ([], st)
  | c :: rest =>
      r <- Sha256Revision.zkCommit subtle_digest (call_rawBytes c) (call_now c) st
             (call_target c) (call_sessionId c) (call_round c) (call_phase c) ;;
      rs <- runCommits subtle_digest (snd r) rest ;;
      Normal (fst r :: fst rs, snd rs)
  end.

(** The call is made for the key (sessionId, round, phase). *)
Definition callKeyIs (sid rnd ph : Z) (c : commitCall) : bool :=
  (call_sessionId c =? sid) && (call_round c =? rnd) && (call_phase c =? ph).

(** * Game states that differ in the investigation only *)

(** [g] with another investigation result. *)
Definition withInvestigation (g : Game) (investigated : option Z) (isMafia : bool) : Game :=
  mkGame (creator g) (day g) (human_count g) isMafia investigated (last_killed g)
         (last_saved g) (last_voted_out g) (game_phase g) (slots g) (wager g) (winner g).

(** [g1] and [g2] agree on every field but [last_investigated] and
    [invest_is_mafia]. *)
Definition sameExceptInvestigation (g1 g2 : Game) : Prop :=
  creator g1 = creator g2 /\ day g1 = day g2 /\ human_count g1 = human_count g2
  /\ last_killed g1 = last_killed g2 /\ last_saved g1 = last_saved g2
  /\ last_voted_out g1 = last_voted_out g2 /\ game_phase g1 = game_phase g2
  /\ slots g1 = slots g2 /\ wager g1 = wager g2 /\ winner g1 = winner g2.

Definition villagerAddress : string :=
  "GVILLAGER2QWERTYUIOPASDFGHJKLZXCVBNM234567QWERTYUIOPASDF".
Definition sheriffAddress : string :=
  "GSHERIFF22QWERTYUIOPASDFGHJKLZXCVBNM234567QWERTYUIOPASDF".

(** Seat 0 is a human Villager and seat 4 the human Sheriff; the other
    seats are bots, and the Villager of seat 5 died last night. *)
Definition exampleSlots : list Slot :=
  [ mkSlot None (Some villagerAddress) true None 1 false;
    mkSlot None None true None 0 false;
    mkSlot None None true None 0 false;
    mkSlot None None true None 2 false;
    mkSlot None (Some sheriffAddress) true None 3 false;
    mkSlot None None false None 1 false;
    mkSlot None None true None 1 false;
    mkSlot None None true None 1 false ].

(** Session 7, round 2, the night just opened: seat 5 was killed, the
    Sheriff looked at seat 1. *)
Definition exampleGame (isMafia : bool) : Game :=
  mkGame villagerAddress 2 2 isMafia (Some 1) (Some 5) false None 1 exampleSlots 100 None.

(** What the viewer's browser kept of round 1: a pass. *)
Definition exampleStore : storageItem :=
  JsonItem
    [ mkZkCommitment
        "0x3414421b183188342209566fad4e0c0723070b4030630dde685ba70281e92725"
        (AsDecimal 0) 4294967295 7 1 1 "2026-01-01T00:00:00.000Z" ].

(* ------------------------------------------------------------------ *)
(** * More of zkActionService.ts *)

(** [c.slice(0, 10) + '…' + c.slice(-8)] *)
Definition shortCommitment (c : string) : string :=
  append (slice_front c 10) (append "…" (slice_back c 8)).

(** [getStoredCommitment] of the Poseidon revision: it scans what its
    [loadAll] returns and restores the nonce of the entry it finds. *)
Module PoseidonLookup.

Fixpoint scanBack (sid rnd ph : Z) (all : list ZkCommitment) (k : nat)
  : option ZkCommitment :=
  match k with
  | O => None
  | S i =>
      match nth_error all i with
      | Some c =>
          if sameKey sid rnd ph c
          then Some (mkZkCommitment (commitment c) (AsBigInt (nonceValue (nonce c)))
                       (target c) (sessionId c) (round c) (phase c) (createdAt c))
          else scanBack sid rnd ph all i
      | None => scanBack sid rnd ph all i
      end
  end.

Definition getStoredCommitment (st : storageItem) (sid rnd ph : Z)
  : option ZkCommitment :=
  let all := PoseidonRevision.loadAll st in
  scanBack sid rnd ph all (List.length all).

End PoseidonLookup.

(* ------------------------------------------------------------------ *)
(** * The game component of the commit-reveal revision *)

Module Component.

Import GameView.

(** [sl.addr === userAddress] *)
Definition addrIs (userAddress : string) (sl : Slot) : bool :=
  match addr sl with
  | Some a => String.eqb a userAddress
  | None => false
  end.

(** [slots.findIndex(p)], counting from [i]; -1 when no slot passes. *)
Fixpoint findIndexFrom (i : Z) (p : Slot -> bool) (sls : list Slot) : Z :=
  match sls with
  | [] => -1
  | sl :: rest => if p sl then i else findIndexFrom (i + 1) p rest
  end.

(** [game ? game.slots.findIndex(sl => sl.addr === userAddress) : -1] *)
Definition myIdx (game : option Game) (userAddress : string) : Z :=
  match game with
  | Some g => findIndexFrom 0 (addrIs userAddress) (slots g)
  | None => -1
  end.

(** [myIdx !== -1 && game ? game.slots[myIdx] : null] *)
Definition me (game : option Game) (userAddress : string) : option Slot :=
  let i := myIdx game userAddress in
  match game with
  | Some g => if i =? -1 then None else slotAt g i
  | None => None
  end.

(** [myIdx !== -1] *)
Definition inGame (game : option Game) (userAddress : string) : bool :=
  negb (myIdx game userAddress =? -1).

(** [sl.addr != null] *)
Definition isHuman (sl : Slot) : bool :=
  match addr sl with
  | Some _ => true
  | None => false
  end.

(** [g.slots.filter(sl => sl.addr != null && sl.alive && !sl.submitted).length] *)
Definition pendingCount (g : Game) : nat :=
  List.length (filter (fun sl => isHuman sl && alive sl && negb (submitted sl)) (slots g)).

(** [handleNightCommit(target)]: the commitment handed to
    [submitCommitment] and the store left behind. *)
Definition handleNightCommit (subtle_digest : list Z -> completion (list Z))
    (rawBytes : list Z) (now : string) (st : storageItem) (sid : Z) (game : Game)
    (target : Z) : completion (string * storageItem) :=
  proof <- Sha256Revision.zkCommit subtle_digest rawBytes now st target sid (day game)
             PHASE_NIGHT_COMMIT ;;
  Normal (commitment (fst proof), snd proof).

(** [handleNightReveal()]: the target and nonce handed to [revealAction],
    or nothing when it stops on 'No commitment found for this round'. *)
Definition handleNightReveal (st : storageItem) (sid : Z) (game : Game)
  : option (Z * Z) :=
  match Sha256Revision.getStoredCommitment st sid (day game) PHASE_NIGHT_COMMIT with
  | Some stored => Some (target stored, nonceValue (nonce stored))
  | None => None
  end.

(** [storedTargetLabel], as [renderScreen] computes it for the reveal screen. *)
Definition storedTargetLabel (st : storageItem) (sid : option Z) (game : Game) : string :=
  match sid with
  | Some sid =>
      match Sha256Revision.getStoredCommitment st sid (day game) PHASE_NIGHT_COMMIT with
      | Some stored =>
          targetLabel (target stored) (CommitReveal.slotNamesFrom 0 (slots game))
      | None => ""
      end
  | None => ""
  end.


End Component.

(* ------------------------------------------------------------------ *)
(** * The screens *)

Module Screens.

Import GameView.

(** [game.slots.map((sl, i) => ({ sl, i }))], counting from [i]. *)
Fixpoint indexedFrom (i : Z) (sls : list Slot) : list (Slot * Z) :=
  match sls with
  | [] => []
  | sl :: rest => (sl, i) :: indexedFrom (i + 1) rest
  end.

(** [const alive = game.slots.map(...).filter(x => x.sl.alive)] *)
Definition aliveSeats (game : Game) : list (Slot * Z) :=
  filter (fun x => alive (fst x)) (indexedFrom 0 (slots game)).

(** [const townAlive = alive.filter(x => x.sl.role !== 0)] *)
Definition townAlive (game : Game) : list (Slot * Z) :=
  filter (fun x => negb (role (fst x) =? 0)) (aliveSeats game).

(** [alive.filter(({ i }) => i !== myIdx)] *)
Definition aliveOthers (game : Game) (myIdx : Z) : list (Slot * Z) :=
  filter (fun x => negb (snd x =? myIdx)) (aliveSeats game).

(** What the action card of a screen shows. [Choose targets abstain] is a
    button per target, calling [onAction(i)], and with [abstain] one more
    button calling [onAction(PASS_TARGET)]. *)
Inductive actionCard : Set :=
| Spectating
| Eliminated
| Submitted
| AutoPassing
| Choose (targets : list (Slot * Z)) (abstain : bool)
| Reveal (label : string)
| NoCommitmentFound.

(** [!me?.alive] and [me?.submitted] *)
Definition notAlive (me : option Slot) : bool :=
  match me with
  | Some sl => negb (alive sl)
  | None => true
  end.

Definition hasSubmitted (me : option Slot) : bool :=
  match me with
  | Some sl => submitted sl
  | None => false
  end.

Definition roleIs (me : option Slot) (r : Z) : bool :=
  match me with
  | Some sl => role sl =? r
  | None => false
  end.

(** The action card of [NightScreen]. *)
Definition NightScreen (game : Game) (me : option Slot) (myIdx : Z) (inGame : bool)
  : actionCard :=
  if negb inGame then Spectating
  else if notAlive me then Eliminated
  else if hasSubmitted me then Submitted
  else if roleIs me 1 then AutoPassing
  else Choose ((if roleIs me 0 then townAlive game else [])
               ++ (if roleIs me 2 then aliveSeats game else [])
               ++ (if roleIs me 3 then aliveOthers game myIdx else []))
              false.

(** The action card of [NightRevealScreen]; the empty label is falsy. *)
Definition NightRevealScreen (me : option Slot) (inGame : bool)
    (storedTargetLabel : string) : actionCard :=
  if negb inGame then Spectating
  else if notAlive me then Eliminated
  else if hasSubmitted me then Submitted
  else if roleIs me 1 then AutoPassing
  else if String.eqb storedTargetLabel "" then NoCommitmentFound
  else Reveal storedTargetLabel.

(** The action card of [DayScreen]. *)
Definition DayScreen (game : Game) (me : option Slot) (myIdx : Z) (inGame : bool)
  : actionCard :=
  if negb inGame then Spectating
  else if notAlive me then Eliminated
  else if hasSubmitted me then Submitted
  else Choose (aliveOthers game myIdx) true.

(** The screens as [renderScreen] mounts them, with the component's
    derived values. *)
Definition nightCard (game : Game) (userAddress : string) : actionCard :=
  NightScreen game (Component.me (Some game) userAddress)
              (Component.myIdx (Some game) userAddress)
              (Component.inGame (Some game) userAddress).

Definition dayCard (game : Game) (userAddress : string) : actionCard :=
  DayScreen game (Component.me (Some game) userAddress)
            (Component.myIdx (Some game) userAddress)
            (Component.inGame (Some game) userAddress).

Definition revealCard (st : storageItem) (sid : option Z) (game : Game)
    (userAddress : string) : actionCard :=
  NightRevealScreen (Component.me (Some game) userAddress)
                    (Component.inGame (Some game) userAddress)
                    (Component.storedTargetLabel st sid game).

(** [Array.prototype.sort(cmp)] is stable; with a consistent comparator its
    result is the one of insertion sort, each element put behind those it
    does not precede. *)
Fixpoint insertStable {A} (cmp : A -> A -> Z) (x : A) (l : list A) : list A :=
  match l with
  | [] => [x]
  | y :: rest => if cmp x y <? 0 then x :: l else y :: insertStable cmp x rest
  end.

Definition sortStable {A} (cmp : A -> A -> Z) (l : list A) : list A :=
  fold_left (fun acc x => insertStable cmp x acc) l [].

(** The comparator of [GameOverScreen]: the living first. *)
Definition aliveFirst (a b : Slot * Z) : Z :=
  if Bool.eqb (alive (fst a)) (alive (fst b)) then 0
  else if alive (fst a) then -1 else 1.

(** [sortedSlots] of [GameOverScreen]: each slot with its [originalIndex]. *)
Definition sortedSlots (game : Game) : list (Slot * Z) :=
  sortStable aliveFirst (indexedFrom 0 (slots game)).

End Screens.

(* ------------------------------------------------------------------ *)
(** * The plaintext component: isErrCode *)

Module PlaintextComponent.

(** [msg.includes(search)] *)
Definition includes (msg search : string) : bool :=
  match String.index 0 search msg with
  | Some _ => true
  | None => false
  end.

(** [Object.keys({ AlreadyActed: 6, WrongPhase: 5, ... })]: the keys in the
    order they are written. *)
Definition errorNames : list string :=
  [ "AlreadyActed"; "WrongPhase"; "AlreadyJoined"; "NotInGame";
    "GameAlreadyOver"; "NotCreator"; "SessionExists" ].

(** [names.find((_, idx) => idx + 1 === c) || ''] *)
Definition nameAt (c : Z) : string :=
  if c <? 1 then ""
  else match nth_error errorNames (Z.to_nat (c - 1)) with
       | Some name => name
       | None => ""
       end.

(** [codes.some(c => msg.includes(`#${c}`) || msg.includes(nameAt c))] *)
Definition isErrCode (msg : string) (codes : list Z) : bool :=
  existsb (fun c => includes msg (append "#" (toString10 c)) || includes msg (nameAt c))
          codes.

End PlaintextComponent.

(* ------------------------------------------------------------------ *)
(** * Hexadecimal strings *)

Lemma length_append (a b : string) :
  String.length (append a b) = (String.length a + String.length b)%nat.
Proof. induction a as [|c a IH]; simpl; [reflexivity | now rewrite IH]. Qed.

Lemma all_chars_append p (a b : string) :
  all_chars p (append a b) = all_chars p a && all_chars p b.
Proof.
  induction a as [|c a IH]; simpl; [reflexivity |].
  now rewrite IH, andb_assoc.
Qed.

Lemma length_repeat_char c n : String.length (repeat_char c n) = n.
Proof. induction n; simpl; congruence. Qed.

Lemma all_chars_repeat_char p c n : p c = true -> all_chars p (repeat_char c n) = true.
Proof. intros Hc; induction n; simpl; [reflexivity | now rewrite Hc, IHn]. Qed.

Lemma length_string_of_list (l : list ascii) :
  String.length (string_of_list_ascii l) = List.length l.
Proof. induction l; simpl; congruence. Qed.

Lemma isLowerHex_hexDigit d : isLowerHex (hexDigit d) = true.
Proof.
  destruct d as [|p|p]; try reflexivity.
  do 4 (try destruct p as [p|p|]); reflexivity.
Qed.

Lemma hexValue_hexDigit d : 0 <= d < 16 -> hexValue (hexDigit d) = d.
Proof.
  intros H.
  assert (d = 0 \/ d = 1 \/ d = 2 \/ d = 3 \/ d = 4 \/ d = 5 \/ d = 6 \/ d = 7 \/
          d = 8 \/ d = 9 \/ d = 10 \/ d = 11 \/ d = 12 \/ d = 13 \/ d = 14 \/ d = 15)
    as Hd by lia.
  repeat (destruct Hd as [-> | Hd]; [reflexivity |]).
  subst d; reflexivity.
Qed.

Lemma length_hexDigits z n : String.length (hexDigits z n) = n.
Proof.
  unfold hexDigits.
  now rewrite length_string_of_list, length_map, length_rev, length_seq.
Qed.

Lemma all_chars_string_of_list p (l : list ascii) :
  Forall (fun c => p c = true) l -> all_chars p (string_of_list_ascii l) = true.
Proof.
  induction 1 as [|c l Hc _ IH]; simpl; [reflexivity | now rewrite Hc, IH].
Qed.

Lemma all_chars_hexDigits z n : all_chars isLowerHex (hexDigits z n) = true.
Proof.
  unfold hexDigits. apply all_chars_string_of_list.
  apply Forall_map, Forall_forall. intros i _. apply isLowerHex_hexDigit.
Qed.

Lemma parseHex_hexDigits z n acc :
  0 <= z ->
  parseHex (hexDigits z n) acc = acc * 16 ^ Z.of_nat n + z mod 16 ^ Z.of_nat n.
Proof.
  intros Hz. revert acc.
  induction n as [|n IH]; intros acc.
  - simpl. rewrite Z.mod_1_r. lia.
  - unfold hexDigits in *.
    rewrite seq_S, rev_app_distr.
    cbn [rev app map string_of_list_ascii parseHex Nat.add].
    rewrite IH.
    rewrite Z.shiftr_div_pow2 by lia.
    replace (2 ^ (4 * Z.of_nat n)) with (16 ^ Z.of_nat n)
      by (rewrite Z.pow_mul_r by lia; reflexivity).
    rewrite hexValue_hexDigit by (apply Z.mod_pos_bound; lia).
    replace (Z.of_nat (S n)) with (Z.of_nat n + 1) by lia.
    rewrite Z.pow_add_r, Z.pow_1_r by lia.
    rewrite (Z.rem_mul_r z (16 ^ Z.of_nat n) 16) by lia.
    ring.
Qed.

Lemma hexLength_bound z : 0 < z -> z < 16 ^ Z.of_nat (hexLength z).
Proof.
  intros Hz. unfold hexLength.
  pose proof (Z.log2_nonneg z) as Hl.
  rewrite Z2Nat.id by (pose proof (Z.div_pos (Z.log2 z) 4); lia).
  replace 16 with (2 ^ 4) by reflexivity.
  rewrite <- Z.pow_mul_r by (pose proof (Z.div_pos (Z.log2 z) 4); lia).
  apply Z.log2_lt_pow2; [assumption |].
  pose proof (Z.div_mod (Z.log2 z) 4 ltac:(lia)) as Hdm.
  pose proof (Z.mod_pos_bound (Z.log2 z) 4 ltac:(lia)). lia.
Qed.

Lemma hexLength_le z k : 0 < z < 16 ^ Z.of_nat k -> (hexLength z <= k)%nat.
Proof.
  intros [Hz Hlt]. unfold hexLength.
  replace 16 with (2 ^ 4) in Hlt by reflexivity.
  rewrite <- Z.pow_mul_r in Hlt by lia.
  apply Z.log2_lt_pow2 in Hlt; [|assumption].
  pose proof (Z.log2_nonneg z) as Hl.
  assert (Z.log2 z / 4 < Z.of_nat k) by (apply Z.div_lt_upper_bound; lia).
  lia.
Qed.

(** [toString16] is read back by [parseHex]. *)
Lemma parseHex_toString16 z : 0 <= z -> parseHex (toString16 z) 0 = z.
Proof.
  intros Hz. destruct z as [|p|p]; [reflexivity | | lia].
  simpl toString16. rewrite parseHex_hexDigits by lia.
  rewrite Z.mod_small; [lia |].
  split; [lia | apply hexLength_bound; lia].
Qed.

Lemma length_toString16 z k :
  0 <= z < 16 ^ Z.of_nat k -> (1 <= k)%nat -> (String.length (toString16 z) <= k)%nat.
Proof.
  intros [Hz Hlt] Hk. destruct z as [|p|p]; [simpl; lia | | lia].
  simpl toString16. rewrite length_hexDigits. apply hexLength_le. lia.
Qed.

Lemma all_chars_toString16 z : 0 <= z -> all_chars isLowerHex (toString16 z) = true.
Proof.
  intros Hz. destruct z as [|p|p]; [reflexivity | | lia].
  apply all_chars_hexDigits.
Qed.

Lemma parseHex_zeros n s : parseHex (append (repeat_char "0"%char n) s) 0 = parseHex s 0.
Proof. induction n; simpl; [reflexivity | exact IHn]. Qed.

Lemma parseHex_padStart s n : parseHex (padStart s n "0"%char) 0 = parseHex s 0.
Proof. apply parseHex_zeros. Qed.

Lemma length_padStart s n c :
  (String.length s <= n)%nat -> String.length (padStart s n c) = n.
Proof.
  intros H. unfold padStart. rewrite length_append, length_repeat_char. lia.
Qed.

Lemma all_chars_padStart p s n c :
  p c = true -> all_chars p s = true -> all_chars p (padStart s n c) = true.
Proof.
  intros Hc Hs. unfold padStart.
  now rewrite all_chars_append, all_chars_repeat_char, Hs.
Qed.

(** A byte prints as the two digits the specification names. *)
Lemma byte_hex b :
  0 <= b < 256 -> padStart (toString16 b) 2 "0"%char = Spec.lowerHexByte b.
Proof.
  intros H.
  assert (Hc : forall n, (n < 256)%nat ->
             padStart (toString16 (Z.of_nat n)) 2 "0"%char = Spec.lowerHexByte (Z.of_nat n)).
  { intros n Hn. do 256 (destruct n as [|n]; [vm_compute; reflexivity |]). lia. }
  specialize (Hc (Z.to_nat b)). rewrite Z2Nat.id in Hc by lia. apply Hc. lia.
Qed.

Lemma hexOfBytes_lowerHex bytes :
  Forall (fun b => 0 <= b < 256) bytes -> hexOfBytes bytes = Spec.lowerHex bytes.
Proof.
  unfold hexOfBytes, Spec.lowerHex.
  induction 1 as [|b l Hb _ IH]; simpl; [reflexivity |].
  now rewrite byte_hex, IH.
Qed.

Lemma length_lowerHex bytes :
  String.length (Spec.lowerHex bytes) = (2 * List.length bytes)%nat.
Proof.
  unfold Spec.lowerHex. induction bytes as [|b l IH]; simpl; [reflexivity |].
  rewrite IH. lia.
Qed.

Lemma all_chars_lowerHex bytes : all_chars isLowerHex (Spec.lowerHex bytes) = true.
Proof.
  unfold Spec.lowerHex. induction bytes as [|b l IH]; simpl; [reflexivity |].
  now rewrite !isLowerHex_hexDigit, IH.
Qed.


(* ------------------------------------------------------------------ *)
(** * SHA-256 against the standard's examples *)

Example K_first_last :
  nth 0 SHA256.K 0 = 0x428a2f98 /\ nth 63 SHA256.K 0 = 0xc67178f2
  /\ List.length SHA256.K = 64%nat /\ SHA256.h0 SHA256.H0 = 0x6a09e667.
Proof. repeat split. Qed.

Example sha256_empty :
  hexOfBytes (SHA256.digest [])
  = "e3b0c44298fc1c149afbf4c8996fb92427ae41e4649b934ca495991b7852b855".
Proof. vm_compute. reflexivity. Qed.

Example sha256_abc :
  hexOfBytes (SHA256.digest (bytesOfString "abc"))
  = "ba7816bf8f01cfea414140de5dae2223b00361a396177a9cb410ff61f20015ad".
Proof. vm_compute. reflexivity. Qed.

Example sha256_two_blocks :
  hexOfBytes (SHA256.digest
    (bytesOfString "abcdbcdecdefdefgefghfghighijhijkijkljklmklmnlmnomnopnopq"))
  = "248d6a61d20638b8e5c026930c3e6039a33ce45964ff2167f6ecedd419db06c1".
Proof. vm_compute. reflexivity. Qed.

Example sha256Commitment_target1_nonce0 :
  Sha256Revision.sha256Commitment Sha256Revision.webcrypto_digest (Int 1) 0
  = Normal "0x9cbc73d18d70c94fe366e696035c4f2cffdbab7ea6d6c2c039ca185f9c9f2746".
Proof. vm_compute. reflexivity. Qed.

Example zkVerify_ignores_case :
  Sha256Revision.zkVerify Sha256Revision.webcrypto_digest asciiToLowerCase
    "0X9CBC73D18D70C94FE366E696035C4F2CFFDBAB7EA6D6C2C039CA185F9C9F2746" (Int 1) 0
  = Normal true.
Proof. vm_compute. reflexivity. Qed.

Example zkVerify_rejects_other_target :
  Sha256Revision.zkVerify Sha256Revision.webcrypto_digest asciiToLowerCase
    "0x9cbc73d18d70c94fe366e696035c4f2cffdbab7ea6d6c2c039ca185f9c9f2746" (Int 2) 0
  = Normal false.
Proof. vm_compute. reflexivity. Qed.

Example toString_samples :
  toString16 255 = "ff" /\ toString16 0 = "0" /\ toString16 (-31) = "-1f"
  /\ toString10 0 = "0" /\ toString10 42 = "42" /\ toString10 (-5) = "-5"
  /\ targetLabel 4294967295 ["a"; "b"] = "Pass / Abstain"
  /\ targetLabel 1 ["a"; "b"] = "b" /\ targetLabel 3 ["a"; "b"] = "Slot #3".
Proof. repeat split. Qed.

(* ------------------------------------------------------------------ *)
(** * Bytes of the digest and of the preimage *)

Lemma be32_bytes x : Forall (fun b => 0 <= b < 256) (SHA256.be32 x).
Proof.
  unfold SHA256.be32.
  repeat constructor; apply Z.mod_pos_bound; lia.
Qed.

Lemma digest_length msg : List.length (SHA256.digest msg) = 32%nat.
Proof. reflexivity. Qed.

Lemma digest_bytes msg : Forall (fun b => 0 <= b < 256) (SHA256.digest msg).
Proof.
  unfold SHA256.digest, SHA256.output.
  repeat (apply Forall_app; split); apply be32_bytes.
Qed.

(** Byte [k/8] of a word is untouched by reduction modulo 2^32. *)
Lemma shiftr_mod_byte x k :
  0 <= k <= 24 -> Z.shiftr (x mod 2 ^ 32) k mod 256 = Z.shiftr x k mod 256.
Proof.
  intros Hk.
  change 256 with (2 ^ 8).
  apply Z.bits_inj'. intros i Hi.
  destruct (Z.lt_ge_cases i 8) as [Hlt | Hge].
  - rewrite !Z.mod_pow2_bits_low by lia.
    rewrite !Z.shiftr_spec by lia.
    apply Z.mod_pow2_bits_low. lia.
  - now rewrite !Z.mod_pow2_bits_high by lia.
Qed.

Lemma be32_mod x : SHA256.be32 (x mod 2 ^ 32) = SHA256.be32 x.
Proof.
  unfold SHA256.be32.
  rewrite !shiftr_mod_byte by lia.
  pose proof (shiftr_mod_byte x 0 ltac:(lia)) as H0.
  rewrite !Z.shiftr_0_r in H0. now rewrite H0.
Qed.

Lemma be32_bigEndian x : SHA256.be32 x = Spec.bigEndian 4 x.
Proof.
  unfold SHA256.be32, Spec.bigEndian.
  cbn [seq rev app map].
  rewrite !Z.shiftr_div_pow2 by lia.
  change (Z.of_nat 3) with 3; change (Z.of_nat 2) with 2;
    change (Z.of_nat 1) with 1; change (Z.of_nat 0) with 0.
  change (256 ^ 3) with (2 ^ 24); change (256 ^ 2) with (2 ^ 16);
    change (256 ^ 1) with (2 ^ 8); change (256 ^ 0) with 1.
  now rewrite Z.div_1_r.
Qed.

Lemma be64_bigEndian x : SHA256.be32 (Z.shiftr x 32) ++ SHA256.be32 x = Spec.bigEndian 8 x.
Proof.
  unfold SHA256.be32, Spec.bigEndian.
  cbn [seq rev app map].
  rewrite !Z.shiftr_shiftr by lia.
  rewrite !Z.shiftr_div_pow2 by lia.
  change (Z.of_nat 7) with 7; change (Z.of_nat 6) with 6;
    change (Z.of_nat 5) with 5; change (Z.of_nat 4) with 4;
    change (Z.of_nat 3) with 3; change (Z.of_nat 2) with 2;
    change (Z.of_nat 1) with 1; change (Z.of_nat 0) with 0.
  change (32 + 24) with 56; change (32 + 16) with 48; change (32 + 8) with 40.
  change (256 ^ 7) with (2 ^ 56); change (256 ^ 6) with (2 ^ 48);
    change (256 ^ 5) with (2 ^ 40); change (256 ^ 4) with (2 ^ 32);
    change (256 ^ 3) with (2 ^ 24); change (256 ^ 2) with (2 ^ 16);
    change (256 ^ 1) with (2 ^ 8); change (256 ^ 0) with 1.
  now rewrite Z.div_1_r.
Qed.

Lemma length_bigEndian w v : List.length (Spec.bigEndian w v) = w.
Proof.
  unfold Spec.bigEndian. now rewrite length_map, length_rev, length_seq.
Qed.

Lemma land_u32 x : Z.land x 4294967295 = x mod 2 ^ 32.
Proof. change 4294967295 with (Z.ones 32). apply Z.land_ones. lia. Qed.

(** The buffer [sha256Commitment] hands to the digest. *)
Lemma sha256Commitment_unfold subtle_digest target nonce :
  Sha256Revision.sha256Commitment subtle_digest target nonce =
  (digest <- subtle_digest (Spec.preimage (ToUint32 target) nonce) ;;
   Normal (append "0x" (hexOfBytes digest))).
Proof.
  unfold Sha256Revision.sha256Commitment, Sha256Revision.setUint32,
    Sha256Revision.ArrayBuffer.
  cbn [repeat List.length Nat.add Nat.leb firstn skipn app JS.bind].
  rewrite !land_u32, !be32_mod.
  unfold SHA256.be32 at 1 2 3.
  cbn [repeat List.length Nat.add Nat.leb firstn skipn app JS.bind].
  fold (SHA256.be32 (ToUint32 target)).
  fold (SHA256.be32 (Z.shiftr nonce 32)).
  fold (SHA256.be32 nonce).
  unfold Spec.preimage.
  rewrite <- be32_bigEndian, <- be64_bigEndian.
  reflexivity.
Qed.

(* ------------------------------------------------------------------ *)
(** * The commitment string *)

Import Sha256Revision.

Lemma Normal_inj {A} {a b : A} : Normal a = Normal b -> a = b.
Proof. intros E. now inversion E. Qed.

Lemma sha256Commitment_webcrypto target nonce :
  sha256Commitment webcrypto_digest target nonce =
  Normal (Spec.commit (ToUint32 target) nonce).
Proof.
  rewrite sha256Commitment_unfold. unfold webcrypto_digest, Spec.commit.
  cbn [JS.bind]. now rewrite hexOfBytes_lowerHex by apply digest_bytes.
Qed.

Lemma commit_wellFormed target nonce : Spec.wellFormed (Spec.commit target nonce).
Proof.
  exists (Spec.lowerHex (SHA256.digest (Spec.preimage target nonce))).
  split; [reflexivity | split].
  - now rewrite length_lowerHex, digest_length.
  - apply all_chars_lowerHex.
Qed.

Lemma SNARK_FIELD_SIZE_lt : PoseidonRevision.SNARK_FIELD_SIZE < 16 ^ Z.of_nat 64.
Proof. reflexivity. Qed.

Lemma commitmentHex_wellFormed h :
  0 <= h < PoseidonRevision.SNARK_FIELD_SIZE ->
  Spec.wellFormed (PoseidonRevision.commitmentHex h).
Proof.
  intros [H0 Hp]. pose proof SNARK_FIELD_SIZE_lt as Hlt.
  exists (padStart (toString16 h) 64 "0"%char).
  split; [reflexivity | split].
  - apply length_padStart, length_toString16; lia.
  - apply all_chars_padStart; [reflexivity | now apply all_chars_toString16].
Qed.

(** The number a Poseidon commitment string spells is the hash itself. *)
Lemma commitmentHex_value h :
  0 <= h ->
  parseHex (padStart (toString16 h) 64 "0"%char) 0 = h.
Proof. intros H. now rewrite parseHex_padStart, parseHex_toString16. Qed.

Lemma commitmentHex_inj h1 h2 :
  0 <= h1 -> 0 <= h2 ->
  PoseidonRevision.commitmentHex h1 = PoseidonRevision.commitmentHex h2 -> h1 = h2.
Proof.
  intros H1 H2 E. unfold PoseidonRevision.commitmentHex in E.
  cbn [append] in E. injection E as E.
  rewrite <- (commitmentHex_value h1), <- (commitmentHex_value h2) by assumption.
  now rewrite E.
Qed.

(** The bytes of [Spec.bigEndian] are bytes, and read most significant
    first they give back the value modulo 256^width. *)
Lemma bigEndian_bytes w v : Forall (fun b => 0 <= b < 256) (Spec.bigEndian w v).
Proof.
  unfold Spec.bigEndian. apply Forall_map, Forall_forall.
  intros i _. apply Z.mod_pos_bound. lia.
Qed.

Lemma bigEndian_value w v acc :
  fold_left (fun a b => a * 256 + b) (Spec.bigEndian w v) acc
  = acc * 256 ^ Z.of_nat w + v mod 256 ^ Z.of_nat w.
Proof.
  revert acc. induction w as [|w IH]; intros acc.
  - cbn. rewrite Z.mod_1_r. lia.
  - unfold Spec.bigEndian in *.
    rewrite seq_S, rev_app_distr.
    cbn [rev app map fold_left Nat.add].
    rewrite IH.
    replace (Z.of_nat (S w)) with (Z.of_nat w + 1) by lia.
    rewrite Z.pow_add_r, Z.pow_1_r by lia.
    rewrite (Z.rem_mul_r v (256 ^ Z.of_nat w) 256) by lia.
    ring.
Qed.

(** C2. For a u32 target and a u64 nonce, [sha256Commitment] returns "0x"
    followed by the lowercase hex of the SHA-256 digest of exactly twelve
    bytes: bytes 0..4 are the target as a big-endian uint32 (the pass
    sentinel 0xFFFFFFFF being four bytes of 255), bytes 4..12 the nonce as a
    big-endian uint64.  Read most significant byte first, the two groups
    give back the target and the nonce. *)
Theorem sha256Commitment_bit_exact (tgt nce : Z) :
  0 <= tgt < 2 ^ 32 ->
  0 <= nce < 2 ^ 64 ->
  sha256Commitment webcrypto_digest (Int tgt) nce = Normal (Spec.commit tgt nce)
  /\ List.length (Spec.preimage tgt nce) = 12%nat
  /\ Forall (fun b => 0 <= b < 256) (Spec.preimage tgt nce)
  /\ firstn 4 (Spec.preimage tgt nce) = Spec.bigEndian 4 tgt
  /\ skipn 4 (Spec.preimage tgt nce) = Spec.bigEndian 8 nce
  /\ fold_left (fun a b => a * 256 + b) (firstn 4 (Spec.preimage tgt nce)) 0 = tgt
  /\ fold_left (fun a b => a * 256 + b) (skipn 4 (Spec.preimage tgt nce)) 0 = nce
  /\ Spec.bigEndian 4 PASS_TARGET = [255; 255; 255; 255].
Proof.
  intros Ht Hn.
  assert (Hfirst : firstn 4 (Spec.preimage tgt nce) = Spec.bigEndian 4 tgt).
  { unfold Spec.preimage.
    rewrite firstn_app, length_bigEndian, Nat.sub_diag, firstn_O, app_nil_r.
    apply firstn_all2. now rewrite length_bigEndian. }
  assert (Hlast : skipn 4 (Spec.preimage tgt nce) = Spec.bigEndian 8 nce).
  { unfold Spec.preimage.
    rewrite skipn_app, length_bigEndian, Nat.sub_diag, skipn_O.
    rewrite skipn_all2 by now rewrite length_bigEndian. reflexivity. }
  split; [| split; [| split; [| split; [| split; [| split; [| split]]]]]].
  - rewrite sha256Commitment_webcrypto. cbn [ToUint32].
    now rewrite Z.mod_small by lia.
  - unfold Spec.preimage. now rewrite length_app, !length_bigEndian.
  - unfold Spec.preimage. apply Forall_app. split; apply bigEndian_bytes.
  - exact Hfirst.
  - exact Hlast.
  - rewrite Hfirst, bigEndian_value. change (256 ^ Z.of_nat 4) with (2 ^ 32).
    rewrite Z.mod_small; lia.
  - rewrite Hlast, bigEndian_value. change (256 ^ Z.of_nat 8) with (2 ^ 64).
    rewrite Z.mod_small; lia.
  - reflexivity.
Qed.

Lemma sha256Commitment_bit_exact_witness :
  sha256Commitment webcrypto_digest (Int 3) 7 = Normal (Spec.commit 3 7)
  /\ List.length (Spec.preimage 3 7) = 12%nat
  /\ Forall (fun b => 0 <= b < 256) (Spec.preimage 3 7)
  /\ firstn 4 (Spec.preimage 3 7) = Spec.bigEndian 4 3
  /\ skipn 4 (Spec.preimage 3 7) = Spec.bigEndian 8 7
  /\ fold_left (fun a b => a * 256 + b) (firstn 4 (Spec.preimage 3 7)) 0 = 3
  /\ fold_left (fun a b => a * 256 + b) (skipn 4 (Spec.preimage 3 7)) 0 = 7
  /\ Spec.bigEndian 4 PASS_TARGET = [255; 255; 255; 255].
Proof. apply (sha256Commitment_bit_exact 3 7); lia. Defined.

(** C10. Every commitment string [zkCommit] computes is "0x" followed by
    exactly 64 lowercase hexadecimal characters: in the SHA-256 revision for
    every call, in the Poseidon revision for every hash value in the BN254
    field, whose prime is below 2^256. *)
Theorem commitment_strings_well_formed :
  (forall rawBytes now st tgt sid rnd ph,
      exists entry st',
        zkCommit webcrypto_digest rawBytes now st tgt sid rnd ph = Normal (entry, st')
        /\ Spec.wellFormed (commitment entry))
  /\ (forall tgt nce,
         exists c, sha256Commitment webcrypto_digest tgt nce = Normal c
                   /\ Spec.wellFormed c)
  /\ (forall hashBigInt,
         0 <= hashBigInt < PoseidonRevision.SNARK_FIELD_SIZE ->
         Spec.wellFormed (PoseidonRevision.commitmentHex hashBigInt))
  /\ PoseidonRevision.SNARK_FIELD_SIZE < 2 ^ 256.
Proof.
  split; [| split; [| split]].
  - intros. unfold zkCommit. rewrite sha256Commitment_webcrypto. cbn [JS.bind].
    eexists _, _. split; [reflexivity |]. cbn [commitment]. apply commit_wellFormed.
  - intros. rewrite sha256Commitment_webcrypto.
    eexists. split; [reflexivity | apply commit_wellFormed].
  - apply commitmentHex_wellFormed.
  - reflexivity.
Qed.

Lemma commitment_strings_well_formed_witness :
  Spec.wellFormed (PoseidonRevision.commitmentHex 255).
Proof.
  apply (proj1 (proj2 (proj2 commitment_strings_well_formed)) 255).
  unfold PoseidonRevision.SNARK_FIELD_SIZE. lia.
Defined.

(** C5. The two revisions commit differently: for target 1 and nonce 0 the
    SHA-256 commitment spells a number that is no element of the BN254
    field, so no hash [poseidon2] can return gives the same string. *)
Theorem poseidon_and_sha256_commitments_differ :
  exists tgt nce c,
    0 <= tgt < 2 ^ 32 /\ 0 <= nce < 2 ^ 64 /\
    sha256Commitment webcrypto_digest (Int tgt) nce = Normal c /\
    (forall hashBigInt,
        0 <= hashBigInt < PoseidonRevision.SNARK_FIELD_SIZE ->
        PoseidonRevision.commitmentHex hashBigInt <> c) /\
    (forall poseidon2 : list Z -> completion Z,
        (forall inputs h, poseidon2 inputs = Normal h ->
                          0 <= h < PoseidonRevision.SNARK_FIELD_SIZE) ->
        PoseidonRevision.commitmentOf poseidon2 (Int tgt) nce <> Normal c).
Proof.
  exists 1, 0, (Spec.commit 1 0).
  assert (Hne : forall h, 0 <= h < PoseidonRevision.SNARK_FIELD_SIZE ->
                          PoseidonRevision.commitmentHex h <> Spec.commit 1 0).
  { intros h [H0 Hp] E.
    assert (Hv : parseHex (padStart (toString16 h) 64 "0"%char) 0
                 = parseHex (Spec.lowerHex (SHA256.digest (Spec.preimage 1 0))) 0).
    { unfold PoseidonRevision.commitmentHex, Spec.commit in E.
      cbn [append] in E. injection E as E. now rewrite E. }
    rewrite commitmentHex_value in Hv by assumption.
    assert (Hbig : PoseidonRevision.SNARK_FIELD_SIZE
                   <= parseHex (Spec.lowerHex (SHA256.digest (Spec.preimage 1 0))) 0)
      by (vm_compute; discriminate).
    lia. }
  split; [lia | split; [lia | split; [| split]]].
  - apply (sha256Commitment_webcrypto (Int 1) 0).
  - exact Hne.
  - intros poseidon2 Hrange E.
    unfold PoseidonRevision.commitmentOf in E. cbn [BigInt JS.bind] in E.
    destruct (poseidon2 [1; 0]) as [h | e] eqn:Hp; cbn [JS.bind] in E; [| discriminate].
    exact (Hne h (Hrange _ _ Hp) (Normal_inj E)).
Qed.

(* ------------------------------------------------------------------ *)
(** * Verification *)

Section Verify.

Variable subtle_digest : list Z -> completion (list Z).
Variable poseidon2 : list Z -> completion Z.
Variable toLowerCase : string -> string.

(** [zkVerify] is a comparison of the recomputed commitment, and [false]
    when recomputing throws. *)
Lemma sha256_zkVerify_eq c tgt nce :
  zkVerify subtle_digest toLowerCase c tgt nce =
  Normal (match sha256Commitment subtle_digest tgt nce with
          | Normal r => String.eqb (toLowerCase r) (toLowerCase c)
          | Throw _ => false
          end).
Proof.
  unfold zkVerify.
  destruct (sha256Commitment subtle_digest tgt nce); reflexivity.
Qed.

Lemma poseidon_zkVerify_eq c tgt nce :
  PoseidonRevision.zkVerify poseidon2 toLowerCase c tgt nce =
  Normal (match PoseidonRevision.commitmentOf poseidon2 tgt nce with
          | Normal r => String.eqb (toLowerCase r) (toLowerCase c)
          | Throw _ => false
          end).
Proof.
  unfold PoseidonRevision.zkVerify, PoseidonRevision.commitmentOf.
  destruct (BigInt tgt) as [t | e]; cbn [JS.bind try_catch]; [| reflexivity].
  destruct (poseidon2 [t; nce]); reflexivity.
Qed.

End Verify.

(** C3. In both revisions [zkVerify] answers true exactly when the
    commitment recomputed from (target, nonce) equals the given one after
    lower-casing both, and answers false in every other case, a failed
    recomputation included. *)
Theorem zkVerify_recomputes_and_compares :
  (forall subtle_digest toLowerCase c tgt nce,
      (zkVerify subtle_digest toLowerCase c tgt nce = Normal true <->
       exists r, sha256Commitment subtle_digest tgt nce = Normal r
                 /\ toLowerCase r = toLowerCase c)
      /\ (zkVerify subtle_digest toLowerCase c tgt nce = Normal false <->
          ~ exists r, sha256Commitment subtle_digest tgt nce = Normal r
                      /\ toLowerCase r = toLowerCase c))
  /\ (forall poseidon2 toLowerCase c tgt nce,
         (PoseidonRevision.zkVerify poseidon2 toLowerCase c tgt nce = Normal true <->
          exists r, PoseidonRevision.commitmentOf poseidon2 tgt nce = Normal r
                    /\ toLowerCase r = toLowerCase c)
         /\ (PoseidonRevision.zkVerify poseidon2 toLowerCase c tgt nce = Normal false <->
             ~ exists r, PoseidonRevision.commitmentOf poseidon2 tgt nce = Normal r
                         /\ toLowerCase r = toLowerCase c)).
Proof.
  assert (core : forall (toLowerCase : string -> string) (c : string)
                        (recomputed : completion string),
             (Normal (match recomputed with
                      | Normal r => String.eqb (toLowerCase r) (toLowerCase c)
                      | Throw _ => false
                      end) = Normal true <->
              exists r, recomputed = Normal r /\ toLowerCase r = toLowerCase c)
             /\ (Normal (match recomputed with
                         | Normal r => String.eqb (toLowerCase r) (toLowerCase c)
                         | Throw _ => false
                         end) = Normal false <->
                 ~ exists r, recomputed = Normal r /\ toLowerCase r = toLowerCase c)).
  { intros lower c [r | e].
    - destruct (String.eqb_spec (lower r) (lower c)) as [E | N]; split; split.
      + intros _. now exists r.
      + reflexivity.
      + discriminate.
      + intros H. exfalso. apply H. now exists r.
      + discriminate.
      + intros [r' [Hr E]]. apply Normal_inj in Hr. subst r'. contradiction.
      + intros _ [r' [Hr E]]. apply Normal_inj in Hr. subst r'. contradiction.
      + reflexivity.
    - split; split.
      + discriminate.
      + intros [r [Hr _]]. discriminate.
      + intros _ [r [Hr _]]. discriminate.
      + reflexivity. }
  split; intros.
  - rewrite sha256_zkVerify_eq. apply core.
  - rewrite poseidon_zkVerify_eq. apply core.
Qed.

(** C9. [zkVerify] returns a boolean on every input and never throws: a
    recomputation that throws (a target [BigInt] refuses, a hash or digest
    that fails) is caught and gives false. *)
Theorem zkVerify_never_throws :
  (forall subtle_digest toLowerCase c tgt nce,
      exists b, zkVerify subtle_digest toLowerCase c tgt nce = Normal b)
  /\ (forall poseidon2 toLowerCase c tgt nce,
         exists b, PoseidonRevision.zkVerify poseidon2 toLowerCase c tgt nce = Normal b)
  /\ (forall subtle_digest toLowerCase c tgt nce,
         (exists e, sha256Commitment subtle_digest tgt nce = Throw e) ->
         zkVerify subtle_digest toLowerCase c tgt nce = Normal false)
  /\ (forall poseidon2 toLowerCase c tgt nce,
         (exists e, PoseidonRevision.commitmentOf poseidon2 tgt nce = Throw e) ->
         PoseidonRevision.zkVerify poseidon2 toLowerCase c tgt nce = Normal false)
  /\ (forall poseidon2 toLowerCase c nce truncated,
         PoseidonRevision.zkVerify poseidon2 toLowerCase c NaNOrInfinity nce = Normal false
         /\ PoseidonRevision.zkVerify poseidon2 toLowerCase c (Frac truncated) nce
            = Normal false).
Proof.
  split; [| split; [| split; [| split]]].
  - intros. rewrite sha256_zkVerify_eq. eexists. reflexivity.
  - intros. rewrite poseidon_zkVerify_eq. eexists. reflexivity.
  - intros * [e He]. rewrite sha256_zkVerify_eq, He. reflexivity.
  - intros * [e He]. rewrite poseidon_zkVerify_eq, He. reflexivity.
  - intros. split; reflexivity.
Qed.

Lemma zkVerify_never_throws_witness :
  zkVerify (fun _ => Throw TypeError) asciiToLowerCase "0x00" (Int 1) 0 = Normal false.
Proof.
  apply (proj1 (proj2 (proj2 zkVerify_never_throws))).
  exists TypeError. reflexivity.
Defined.

(* ------------------------------------------------------------------ *)
(** * Committing *)

Lemma lor_shift_byte acc b : 0 <= b < 256 -> Z.lor (Z.shiftl acc 8) b = acc * 256 + b.
Proof.
  intros Hb.
  rewrite Z.shiftl_mul_pow2 by lia. change (2 ^ 8) with 256.
  assert (Hland : Z.land (acc * 256) b = 0).
  { apply Z.bits_inj'. intros i Hi. rewrite Z.land_spec, Z.bits_0.
    destruct (Z.lt_ge_cases i 8).
    - change 256 with (2 ^ 8). rewrite Z.mul_pow2_bits_low by lia. reflexivity.
    - replace (Z.testbit b i) with false; [apply andb_false_r |].
      symmetry. apply Z.testbit_false; [lia |].
      rewrite Z.div_small; [reflexivity |].
      split; [lia |]. apply Z.lt_le_trans with (2 ^ 8); [change (2 ^ 8) with 256; lia |].
      apply Z.pow_le_mono_r; lia. }
  rewrite <- Z.lxor_lor by exact Hland.
  symmetry. apply Z.add_nocarry_lxor. exact Hland.
Qed.

(** The nonce folded from bytes stays below 256^(number of bytes). *)
Lemma nonceOfBytes_range rawBytes :
  Forall (fun b => 0 <= b < 256) rawBytes ->
  0 <= nonceOfBytes rawBytes < 256 ^ Z.of_nat (List.length rawBytes).
Proof.
  intros Hb. unfold nonceOfBytes.
  assert (G : forall acc k,
             0 <= acc < 256 ^ Z.of_nat k ->
             0 <= fold_left (fun nonce byte => Z.lor (Z.shiftl nonce 8) byte) rawBytes acc
             < 256 ^ Z.of_nat (k + List.length rawBytes)).
  { induction Hb as [|b l Hb _ IH]; intros acc k Hacc.
    - cbn [fold_left List.length]. now rewrite Nat.add_0_r.
    - cbn [fold_left List.length].
      replace (k + S (List.length l))%nat with (S k + List.length l)%nat by lia.
      apply IH.
      rewrite (lor_shift_byte acc b Hb).
      replace (Z.of_nat (S k)) with (Z.of_nat k + 1) by lia.
      rewrite Z.pow_add_r, Z.pow_1_r by lia. lia. }
  apply (G 0 0%nat). cbn. lia.
Qed.

(** X1. In the SHA-256 revision [zkCommit] returns, its nonce is a u64, the
    entry records the arguments, and [zkVerify] accepts the fresh commitment
    with the same target and nonce. *)
Theorem sha256_zkCommit_roundtrip toLowerCase rawBytes now st tgt sid rnd ph :
  List.length rawBytes = 8%nat ->
  Forall (fun b => 0 <= b < 256) rawBytes ->
  0 <= tgt < 2 ^ 32 ->
  exists entry st',
    zkCommit webcrypto_digest rawBytes now st tgt sid rnd ph = Normal (entry, st')
    /\ target entry = tgt
    /\ nonce entry = AsBigInt (nonceOfBytes rawBytes)
    /\ 0 <= nonceOfBytes rawBytes < 2 ^ 64
    /\ commitment entry = Spec.commit tgt (nonceOfBytes rawBytes)
    /\ zkVerify webcrypto_digest toLowerCase (commitment entry)
                (Int (target entry)) (nonceValue (nonce entry)) = Normal true.
Proof.
  intros Hlen Hbytes Ht.
  unfold zkCommit. rewrite sha256Commitment_webcrypto. cbn [JS.bind].
  eexists _, _. split; [reflexivity |].
  cbn [target nonce commitment nonceValue ToUint32].
  rewrite (Z.mod_small tgt) by lia.
  split; [reflexivity | split; [reflexivity | split; [| split; [reflexivity |]]]].
  - pose proof (nonceOfBytes_range rawBytes Hbytes) as H. rewrite Hlen in H.
    exact H.
  - rewrite sha256_zkVerify_eq, sha256Commitment_webcrypto. cbn [ToUint32].
    rewrite (Z.mod_small tgt) by lia. now rewrite String.eqb_refl.
Qed.

Lemma sha256_zkCommit_roundtrip_witness :
  exists entry st',
    zkCommit webcrypto_digest [1; 2; 3; 4; 5; 6; 7; 8] "2026-01-01T00:00:00.000Z" NoItem
             3 1 1 1 = Normal (entry, st')
    /\ target entry = 3
    /\ nonce entry = AsBigInt (nonceOfBytes [1; 2; 3; 4; 5; 6; 7; 8])
    /\ 0 <= nonceOfBytes [1; 2; 3; 4; 5; 6; 7; 8] < 2 ^ 64
    /\ commitment entry = Spec.commit 3 (nonceOfBytes [1; 2; 3; 4; 5; 6; 7; 8])
    /\ zkVerify webcrypto_digest asciiToLowerCase (commitment entry)
                (Int (target entry)) (nonceValue (nonce entry)) = Normal true.
Proof.
  apply (sha256_zkCommit_roundtrip asciiToLowerCase [1; 2; 3; 4; 5; 6; 7; 8]).
  - reflexivity.
  - repeat constructor; lia.
  - lia.
Defined.

(** X2. In the Poseidon revision the commitment computed for (target, nonce)
    verifies against the same pair whenever the hash returns. *)
Theorem poseidon_commitment_roundtrip poseidon2 toLowerCase tgt nce c :
  PoseidonRevision.commitmentOf poseidon2 tgt nce = Normal c ->
  PoseidonRevision.zkVerify poseidon2 toLowerCase c tgt nce = Normal true.
Proof.
  intros H. rewrite poseidon_zkVerify_eq, H. now rewrite String.eqb_refl.
Qed.

Lemma poseidon_commitment_roundtrip_witness :
  PoseidonRevision.zkVerify (fun inputs => Normal (fold_right Z.add 0 inputs))
    asciiToLowerCase (PoseidonRevision.commitmentHex 10) (Int 3) 7 = Normal true.
Proof.
  apply (poseidon_commitment_roundtrip (fun inputs => Normal (fold_right Z.add 0 inputs))).
  reflexivity.
Defined.

Lemma slice_last_last {A} n (l : list A) (x : A) :
  (0 < n)%nat -> exists front, slice_last n (l ++ [x]) = front ++ [x].
Proof.
  intros Hn. unfold slice_last. rewrite length_app. cbn [List.length].
  rewrite skipn_app.
  replace (List.length l + 1 - n - List.length l)%nat with 0%nat by lia.
  rewrite skipn_O. eexists. reflexivity.
Qed.

(** C1, as the Poseidon revision stands. [zkCommit] never returns: the
    entry it appends holds a bigint nonce, and [saveAll] serialises without
    a replacer, so [JSON.stringify] throws a TypeError once the hash has
    returned.  No commitment reaches the caller, whatever the platform's
    hash and whatever the store held. *)
Theorem poseidon_zkCommit_always_throws :
  forall poseidon2 rawBytes now st tgt sid rnd ph,
    PoseidonRevision.zkCommit poseidon2 rawBytes now st tgt sid rnd ph
    = match poseidon2 [tgt; Z.rem (nonceOfBytes rawBytes)
                              PoseidonRevision.SNARK_FIELD_SIZE] with
      | Normal _ => Throw TypeError
      | Throw e => Throw e
      end.
Proof.
  intros. unfold PoseidonRevision.zkCommit. cbn [BigInt JS.bind].
  destruct (poseidon2 _) as [h | e]; cbn [JS.bind]; [| reflexivity].
  unfold PoseidonRevision.saveAll, JSON_stringify.
  match goal with |- context [slice_last 50 (?l ++ [?x])] =>
    destruct (slice_last_last 50 l x ltac:(lia)) as [front ->] end.
  rewrite existsb_app. cbn [existsb nonce isBigInt].
  rewrite orb_true_r. reflexivity.
Qed.

(* ------------------------------------------------------------------ *)
(** * The browser store *)

Lemma loadAll_inMemory st : Forall inMemory (loadAll st).
Proof.
  destruct st as [| | raw]; cbn [loadAll]; try constructor.
  apply Forall_map, Forall_forall. intros c _. reflexivity.
Qed.

Lemma skipn_map {A B} (f : A -> B) n l : skipn n (map f l) = map f (skipn n l).
Proof.
  revert l. induction n as [|n IH]; intros [|x l]; cbn; try reflexivity. apply IH.
Qed.

Lemma loadAll_saveAll items :
  Forall inMemory items -> loadAll (saveAll items) = slice_last 50 items.
Proof.
  intros H. unfold saveAll, JSON_stringify_replacing. cbn [loadAll].
  rewrite map_map.
  assert (Hs : Forall inMemory (slice_last 50 items)).
  { unfold slice_last. apply Forall_forall. intros c Hc.
    rewrite Forall_forall in H. apply H.
    rewrite <- (firstn_skipn (List.length items - 50) items).
    apply in_or_app. now right. }
  induction Hs as [|c l Hc _ IH]; cbn [map]; [reflexivity |].
  rewrite IH. f_equal.
  destruct c as [cm [n | n] t si r p ca]; [reflexivity | discriminate Hc].
Qed.

Lemma slice_last_app_idem {A} n (X Y : list A) :
  slice_last n (slice_last n X ++ Y) = slice_last n (X ++ Y).
Proof.
  unfold slice_last.
  rewrite !length_app, length_skipn.
  set (k := (List.length X - n)%nat).
  replace (skipn k X ++ Y) with (skipn k (X ++ Y)).
  - rewrite skipn_skipn. f_equal. lia.
  - rewrite skipn_app. replace (k - List.length X)%nat with 0%nat by lia.
    now rewrite skipn_O.
Qed.

Lemma length_slice_last {A} n (l : list A) : (List.length (slice_last n l) <= n)%nat.
Proof. unfold slice_last. rewrite length_skipn. lia. Qed.

Lemma firstn_S_nth_error {A} (l : list A) i c :
  nth_error l i = Some c -> firstn (S i) l = firstn i l ++ [c].
Proof.
  revert l. induction i as [|i IH]; intros [|x l] H; try discriminate.
  - cbn in H. injection H as ->. reflexivity.
  - cbn [nth_error] in H. cbn [firstn app]. f_equal. rewrite <- IH by exact H.
    reflexivity.
Qed.

(** The backwards scan stops at the last entry that has the key. *)
Lemma scanBack_spec sid rnd ph all k :
  (k <= List.length all)%nat ->
  match scanBack sid rnd ph all k with
  | Some c =>
      exists older newer,
        firstn k all = older ++ c :: newer
        /\ sameKey sid rnd ph c = true
        /\ forallb (fun c' => negb (sameKey sid rnd ph c')) newer = true
  | None => forallb (fun c' => negb (sameKey sid rnd ph c')) (firstn k all) = true
  end.
Proof.
  induction k as [|i IH]; intros Hk; cbn [scanBack].
  - reflexivity.
  - destruct (nth_error all i) as [c |] eqn:Hi.
    2:{ apply nth_error_None in Hi. lia. }
    rewrite (firstn_S_nth_error _ _ _ Hi).
    destruct (sameKey sid rnd ph c) eqn:Hc.
    + exists (firstn i all), []. auto.
    + specialize (IH ltac:(lia)).
      destruct (scanBack sid rnd ph all i) as [c' |].
      * destruct IH as (older & newer & Hf & Hk' & Hn).
        exists older, (newer ++ [c]). rewrite Hf, <- app_assoc. cbn [app].
        split; [reflexivity | split; [assumption |]].
        rewrite forallb_app, Hn. cbn. now rewrite Hc.
      * rewrite forallb_app, IH. cbn. now rewrite Hc.
Qed.

Lemma zkCommit_store rawBytes now st tgt sid rnd ph :
  exists entry st',
    zkCommit webcrypto_digest rawBytes now st tgt sid rnd ph = Normal (entry, st')
    /\ sessionId entry = sid /\ round entry = rnd /\ phase entry = ph
    /\ loadAll st' = slice_last 50 (loadAll st ++ [entry]).
Proof.
  unfold zkCommit. rewrite sha256Commitment_webcrypto. cbn [JS.bind].
  eexists _, _. split; [reflexivity |]. cbn [sessionId round phase].
  repeat (split; [reflexivity |]).
  apply loadAll_saveAll, Forall_app. split; [apply loadAll_inMemory |].
  repeat constructor.
Qed.

Lemma runCommits_store calls :
  forall st,
  exists entries st',
    runCommits webcrypto_digest st calls = Normal (entries, st')
    /\ List.length entries = List.length calls
    /\ match calls with
       | [] => st' = st
       | _ :: _ => loadAll st' = slice_last 50 (loadAll st ++ entries)
       end.
Proof.
  induction calls as [|c rest IH]; intros st.
  - exists [], st. cbn. auto.
  - cbn [runCommits].
    destruct (zkCommit_store (call_rawBytes c) (call_now c) st (call_target c)
                (call_sessionId c) (call_round c) (call_phase c))
      as (e & st1 & -> & _ & _ & _ & H1).
    cbn [JS.bind fst snd].
    destruct (IH st1) as (es & st2 & -> & Hlen & Hrest).
    cbn [JS.bind fst snd].
    exists (e :: es), st2. split; [reflexivity |].
    split; [cbn; now rewrite Hlen |].
    destruct rest as [|c2 rest'].
    + destruct es; [| discriminate Hlen]. subst st2. exact H1.
    + rewrite Hrest, H1, slice_last_app_idem, <- app_assoc. reflexivity.
Qed.

(** C8. The store is keyed by (session, round, phase) and capped:
    [getStoredCommitment] returns the last stored entry whose three key
    fields match and null when none does; a [zkCommit] call appends its
    entry, which the same key then finds; and after any run of [zkCommit]
    calls the store holds the 50 most recent entries at most, the oldest
    dropped. *)
Theorem secret_store_keyed_and_capped :
  (forall st sid rnd ph,
      match getStoredCommitment st sid rnd ph with
      | Some c =>
          exists older newer,
            loadAll st = older ++ c :: newer
            /\ sameKey sid rnd ph c = true
            /\ forallb (fun c' => negb (sameKey sid rnd ph c')) newer = true
      | None => forallb (fun c' => negb (sameKey sid rnd ph c')) (loadAll st) = true
      end)
  /\ (forall sid rnd ph c,
         sameKey sid rnd ph c = true <->
         sessionId c = sid /\ round c = rnd /\ phase c = ph)
  /\ (forall rawBytes now st tgt sid rnd ph,
         exists entry st',
           zkCommit webcrypto_digest rawBytes now st tgt sid rnd ph = Normal (entry, st')
           /\ loadAll st' = slice_last 50 (loadAll st ++ [entry])
           /\ getStoredCommitment st' sid rnd ph = Some entry)
  /\ (forall st call calls,
         exists entries st',
           runCommits webcrypto_digest st (call :: calls) = Normal (entries, st')
           /\ List.length entries = S (List.length calls)
           /\ loadAll st' = slice_last 50 (loadAll st ++ entries)
           /\ (List.length (loadAll st') <= 50)%nat).
Proof.
  split; [| split; [| split]].
  - intros. unfold getStoredCommitment.
    pose proof (scanBack_spec sid rnd ph (loadAll st) (List.length (loadAll st))
                  (le_n _)) as H.
    now rewrite firstn_all in H.
  - intros. unfold sameKey. rewrite !andb_true_iff, !Z.eqb_eq. tauto.
  - intros.
    destruct (zkCommit_store rawBytes now st tgt sid rnd ph)
      as (e & st' & Hrun & Hs & Hr & Hp & Hload).
    exists e, st'. split; [exact Hrun | split; [exact Hload |]].
    unfold getStoredCommitment. rewrite Hload.
    destruct (slice_last_last 50 (loadAll st) e ltac:(lia)) as [front ->].
    rewrite length_app. cbn [List.length]. rewrite Nat.add_1_r. cbn [scanBack].
    rewrite nth_error_app2 by lia. rewrite Nat.sub_diag. cbn [nth_error].
    unfold sameKey. now rewrite Hs, Hr, Hp, !Z.eqb_refl.
  - intros.
    destruct (runCommits_store (call :: calls) st) as (es & st' & Hrun & Hlen & Hload).
    exists es, st'. split; [exact Hrun | split; [exact Hlen | split; [exact Hload |]]].
    rewrite Hload. apply length_slice_last.
Qed.

(* ------------------------------------------------------------------ *)
(** * The error tables *)

(** C7, as the code has it. The commit-reveal bindings list exactly the
    thirteen errors of the specification under the codes 1 to 13, in its
    order; the plaintext bindings, whose client has neither
    [submit_commitment] nor [reveal_action], list the first eleven under the
    same codes and stop there. *)
Theorem MafiaError_tables :
  map snd CommitRevealBindings.MafiaError = specErrorTaxonomy
  /\ map fst CommitRevealBindings.MafiaError = map Z.of_nat (seq 1 13)
  /\ PlaintextBindings.MafiaError = firstn 11 CommitRevealBindings.MafiaError
  /\ map snd PlaintextBindings.MafiaError = firstn 11 specErrorTaxonomy
  /\ map fst PlaintextBindings.MafiaError = map Z.of_nat (seq 1 11)
  /\ bindingsRevisions = [PlaintextBindings.MafiaError; CommitRevealBindings.MafiaError]
  /\ hasMethod CommitRevealBindings.methods "submit_commitment" = true
  /\ hasMethod CommitRevealBindings.methods "reveal_action" = true
  /\ hasMethod PlaintextBindings.methods "submit_commitment" = false
  /\ hasMethod PlaintextBindings.methods "reveal_action" = false.
Proof. repeat split. Qed.

(** The plaintext bindings are a revision of the bindings, and they know
    neither InvalidReveal (12) nor NoCommitment (13). *)
Lemma plaintext_bindings_stop_at_eleven :
  In PlaintextBindings.MafiaError bindingsRevisions
  /\ List.length PlaintextBindings.MafiaError = 11%nat
  /\ errorMessage PlaintextBindings.MafiaError 12 = None
  /\ errorMessage PlaintextBindings.MafiaError 13 = None
  /\ map snd PlaintextBindings.MafiaError <> specErrorTaxonomy.
Proof.
  split; [now left |]. repeat split. discriminate.
Qed.

(* ------------------------------------------------------------------ *)
(** * The last-event panel *)

Import GameView.

(** X3. In the commit-reveal revision a viewer who is not the Sheriff gets the
    same panel from any two game states that differ in the investigation
    fields only. *)
Theorem commitReveal_LastEvent_hides_investigation st sid userAddress g1 g2 :
  sameExceptInvestigation g1 g2 ->
  CommitReveal.isSheriff (Some g1) userAddress = false ->
  CommitReveal.LastEvent st sid userAddress (Some g1)
  = CommitReveal.LastEvent st sid userAddress (Some g2).
Proof.
  intros (Hc & Hd & Hh & Hk & Hs & Hv & Hp & Hsl & Hw & Hwin) Hsheriff.
  destruct g1 as [c1 d1 h1 im1 li1 lk1 ls1 lv1 p1 sl1 w1 wi1].
  destruct g2 as [c2 d2 h2 im2 li2 lk2 ls2 lv2 p2 sl2 w2 wi2].
  cbn in Hc, Hd, Hh, Hk, Hs, Hv, Hp, Hsl, Hw, Hwin. subst.
  unfold CommitReveal.LastEvent.
  change (CommitReveal.isSheriff (Some (mkGame c2 d2 h2 im2 li2 lk2 ls2 lv2 p2 sl2 w2 wi2))
            userAddress)
    with (CommitReveal.isSheriff (Some (mkGame c2 d2 h2 im1 li1 lk2 ls2 lv2 p2 sl2 w2 wi2))
            userAddress).
  rewrite Hsheriff. reflexivity.
Qed.

Lemma commitReveal_LastEvent_hides_investigation_witness :
  CommitReveal.LastEvent exampleStore (Some 7) villagerAddress (Some (exampleGame true))
  = CommitReveal.LastEvent exampleStore (Some 7) villagerAddress (Some (exampleGame false)).
Proof.
  apply (commitReveal_LastEvent_hides_investigation exampleStore (Some 7) villagerAddress
           (exampleGame true) (exampleGame false)).
  - repeat split.
  - reflexivity.
Defined.

(** What the two viewers of the example read in the commit-reveal revision:
    the Villager the death and the note on the stored commitment, the
    Sheriff the investigation as well. *)
Example commitReveal_LastEvent_villager_view :
  CommitReveal.LastEvent exampleStore (Some 7) villagerAddress (Some (exampleGame true))
  = Normal (Some
      [ mkLine "💀" "AI Bot #6 was eliminated by the Mafia.";
        mkLine "🔐" (join [ "Your ZK commitment from last night was for "; dquote;
                           "Pass / Abstain"; dquote;
                           " — sha256 verified onchain ✅" ]) ]).
Proof. vm_compute. reflexivity. Qed.

Example commitReveal_LastEvent_sheriff_view :
  CommitReveal.LastEvent NoItem (Some 7) sheriffAddress (Some (exampleGame true))
  = Normal (Some
      [ mkLine "💀" "AI Bot #6 was eliminated by the Mafia.";
        mkLine "🔍" "[Sheriff] You investigated AI Bot #2: ⚠️ IS Mafia!" ])
  /\ CommitReveal.LastEvent NoItem (Some 7) sheriffAddress (Some (exampleGame false))
     = Normal (Some
         [ mkLine "💀" "AI Bot #6 was eliminated by the Mafia.";
           mkLine "🔍" "[Sheriff] You investigated AI Bot #2: ✅ Town member." ]).
Proof. split; vm_compute; reflexivity. Qed.

(** C6, as the plaintext revision stands. Its panel has no viewer: the
    investigation line is pushed for everybody, so the Villager of seat 0
    reads the Sheriff's result, and the two game states below, equal but for
    [invest_is_mafia], give two different panels. *)
Theorem plaintext_LastEvent_shows_investigation :
  sameExceptInvestigation (exampleGame true) (exampleGame false)
  /\ CommitReveal.isSheriff (Some (exampleGame true)) villagerAddress = false
  /\ Plaintext.LastEvent (Some (exampleGame true))
     = Normal (Some
         [ mkLine "💀" "AI Bot #6 was eliminated by the Mafia.";
           mkLine "🔍" "Sheriff investigated AI Bot #2: ⚠️ IS Mafia!" ])
  /\ Plaintext.LastEvent (Some (exampleGame false))
     = Normal (Some
         [ mkLine "💀" "AI Bot #6 was eliminated by the Mafia.";
           mkLine "🔍" "Sheriff investigated AI Bot #2: ✅ Town member." ])
  /\ Plaintext.LastEvent (Some (exampleGame true))
     <> Plaintext.LastEvent (Some (exampleGame false)).
Proof.
  split; [repeat split |].
  split; [reflexivity |].
  split; [vm_compute; reflexivity |].
  split; [vm_compute; reflexivity |].
  vm_compute. discriminate.
Qed.

(* ------------------------------------------------------------------ *)
(** * What the commitment does with inputs out of range *)

Lemma bigEndian_snoc w v :
  Spec.bigEndian (S w) v = Spec.bigEndian w (v / 256) ++ [v mod 256].
Proof.
  unfold Spec.bigEndian.
  rewrite <- cons_seq, <- seq_shift. cbn [rev]. rewrite map_app. cbn [map].
  change (Z.of_nat 0) with 0. rewrite Z.pow_0_r, Z.div_1_r. f_equal.
  rewrite <- map_rev, map_map. apply map_ext. intros i.
  rewrite Nat2Z.inj_succ, Z.pow_succ_r by lia.
  now rewrite Z.div_div by lia.
Qed.

Lemma bigEndian_mod w v : Spec.bigEndian w (v mod 256 ^ Z.of_nat w) = Spec.bigEndian w v.
Proof.
  revert v. induction w as [|w IH]; intros v; [reflexivity |].
  rewrite !bigEndian_snoc.
  replace (Z.of_nat (S w)) with (1 + Z.of_nat w) by lia.
  rewrite Z.pow_add_r, Z.pow_1_r by lia.
  rewrite Z.rem_mul_r by lia.
  replace ((v mod 256 + 256 * ((v / 256) mod 256 ^ Z.of_nat w)) / 256)
    with ((v / 256) mod 256 ^ Z.of_nat w).
  - rewrite IH. f_equal. f_equal.
    rewrite Z.mul_comm, Z.mod_add by lia. apply Z.mod_mod. lia.
  - rewrite Z.mul_comm, Z.div_add by lia.
    rewrite (Z.div_small (v mod 256)) by (apply Z.mod_pos_bound; lia). reflexivity.
Qed.

Lemma preimage_reduced tgt nce :
  Spec.preimage (tgt mod 2 ^ 32) (nce mod 2 ^ 64) = Spec.preimage tgt nce.
Proof.
  unfold Spec.preimage.
  change (2 ^ 32) with (256 ^ Z.of_nat 4). change (2 ^ 64) with (256 ^ Z.of_nat 8).
  now rewrite !bigEndian_mod.
Qed.

Lemma ToUint32_idem tgt : ToUint32 (Int (ToUint32 tgt)) = ToUint32 tgt.
Proof.
  destruct tgt; cbn [ToUint32]; try reflexivity; apply Z.mod_mod; lia.
Qed.

(** X4. [sha256Commitment] keeps of its inputs only the target as a uint32
    and the low 64 bits of the nonce: a target is reduced modulo 2^32 (so -1
    commits as the pass sentinel), a fraction is truncated, NaN commits as
    0, and a nonce is reduced modulo 2^64.  [zkVerify] therefore gives the
    same answer for inputs that agree after this reduction. *)
Theorem sha256Commitment_reduces_inputs :
  forall subtle_digest toLowerCase c tgt nce,
    sha256Commitment subtle_digest tgt nce
    = sha256Commitment subtle_digest (Int (ToUint32 tgt)) (nce mod 2 ^ 64)
    /\ zkVerify subtle_digest toLowerCase c tgt nce
       = zkVerify subtle_digest toLowerCase c (Int (ToUint32 tgt)) (nce mod 2 ^ 64)
    /\ sha256Commitment subtle_digest (Int (-1)) nce
       = sha256Commitment subtle_digest (Int PASS_TARGET) nce
    /\ (forall z, sha256Commitment subtle_digest (Frac z) nce
                  = sha256Commitment subtle_digest (Int z) nce)
    /\ sha256Commitment subtle_digest NaNOrInfinity nce
       = sha256Commitment subtle_digest (Int 0) nce.
Proof.
  intros.
  assert (H : sha256Commitment subtle_digest tgt nce
              = sha256Commitment subtle_digest (Int (ToUint32 tgt)) (nce mod 2 ^ 64)).
  { rewrite !sha256Commitment_unfold, ToUint32_idem.
    rewrite <- (preimage_reduced (ToUint32 tgt) (nce mod 2 ^ 64)).
    rewrite <- (preimage_reduced (ToUint32 tgt) nce).
    now rewrite Z.mod_mod by lia. }
  split; [exact H | split; [| split; [| split]]].
  - unfold zkVerify. now rewrite H.
  - rewrite !sha256Commitment_unfold. reflexivity.
  - intros z. rewrite !sha256Commitment_unfold. reflexivity.
  - rewrite !sha256Commitment_unfold. reflexivity.
Qed.

(* ------------------------------------------------------------------ *)
(** * The encoding loses nothing *)

Lemma lowerHexByte_inj b b' :
  0 <= b < 256 -> 0 <= b' < 256 ->
  Spec.lowerHexByte b = Spec.lowerHexByte b' -> b = b'.
Proof.
  intros Hb Hb' E. unfold Spec.lowerHexByte in E.
  injection E as E1 E2.
  apply (f_equal hexValue) in E1. apply (f_equal hexValue) in E2.
  rewrite !hexValue_hexDigit in E1
    by (split; [apply Z.div_pos; lia | apply Z.div_lt_upper_bound; lia]).
  rewrite !hexValue_hexDigit in E2 by (apply Z.mod_pos_bound; lia).
  rewrite (Z.div_mod b 16), (Z.div_mod b' 16) by lia. now rewrite E1, E2.
Qed.

Lemma lowerHex_inj l l' :
  Forall (fun b => 0 <= b < 256) l -> Forall (fun b => 0 <= b < 256) l' ->
  Spec.lowerHex l = Spec.lowerHex l' -> l = l'.
Proof.
  intros Hl. revert l'. induction Hl as [|b l Hb _ IH]; intros l' Hl' E.
  - destruct l' as [|b' l']; [reflexivity | discriminate E].
  - destruct Hl' as [|b' l' Hb' Hl']; [discriminate E |].
    unfold Spec.lowerHex in E. cbn [map join fold_right] in E.
    unfold Spec.lowerHexByte in E at 1 3. cbn [append] in E.
    injection E as E1 E2 E3.
    f_equal.
    + apply lowerHexByte_inj; try assumption.
      unfold Spec.lowerHexByte. now rewrite E1, E2.
    + apply IH; assumption.
Qed.

Lemma app_eq_same_length {A} (a a' b b' : list A) :
  List.length a = List.length a' -> a ++ b = a' ++ b' -> a = a' /\ b = b'.
Proof.
  revert a'. induction a as [|x a IH]; intros [|x' a'] Hlen E; try discriminate Hlen.
  - now split.
  - cbn [app] in E. injection E as -> E. cbn in Hlen. injection Hlen as Hlen.
    destruct (IH a' Hlen E) as [-> ->]. now split.
Qed.

Lemma preimage_inj t n t' n' :
  0 <= t < 2 ^ 32 -> 0 <= n < 2 ^ 64 -> 0 <= t' < 2 ^ 32 -> 0 <= n' < 2 ^ 64 ->
  Spec.preimage t n = Spec.preimage t' n' -> t = t' /\ n = n'.
Proof.
  intros Ht Hn Ht' Hn' E. unfold Spec.preimage in E.
  apply app_eq_same_length in E.
  - destruct E as [E4 E8].
    apply (f_equal (fun l => fold_left (fun a b => a * 256 + b) l 0)) in E4, E8.
    rewrite !bigEndian_value in E4, E8.
    change (256 ^ Z.of_nat 4) with (2 ^ 32) in E4.
    change (256 ^ Z.of_nat 8) with (2 ^ 64) in E8.
    rewrite !Z.mod_small in E4, E8 by lia. lia.
  - now rewrite !length_bigEndian.
Qed.

(** X5. With the digest taken out (the identity in its place),
    [sha256Commitment] is injective on u32 targets and u64 nonces: the
    twelve bytes and their hex print determine the pair, so two pairs with
    one commitment collide in SHA-256 and nowhere else. *)
Theorem sha256Commitment_encoding_injective t n t' n' :
  0 <= t < 2 ^ 32 -> 0 <= n < 2 ^ 64 ->
  0 <= t' < 2 ^ 32 -> 0 <= n' < 2 ^ 64 ->
  sha256Commitment (fun buf => Normal buf) (Int t) n
  = sha256Commitment (fun buf => Normal buf) (Int t') n' ->
  t = t' /\ n = n'.
Proof.
  intros Ht Hn Ht' Hn' E.
  rewrite !sha256Commitment_unfold in E. cbn [JS.bind ToUint32] in E.
  rewrite !(Z.mod_small _ (2 ^ 32)) in E by lia.
  apply Normal_inj in E. cbn [append] in E. injection E as E.
  assert (Hb : forall a b, Forall (fun x => 0 <= x < 256) (Spec.preimage a b)).
  { intros. unfold Spec.preimage. apply Forall_app. split; apply bigEndian_bytes. }
  rewrite !hexOfBytes_lowerHex in E by apply Hb.
  apply lowerHex_inj in E; try apply Hb.
  now apply preimage_inj.
Qed.

Lemma sha256Commitment_encoding_injective_witness : 3 = 3 /\ 7 = 7.
Proof.
  apply (sha256Commitment_encoding_injective 3 7 3 7); try lia. reflexivity.
Defined.

(* ------------------------------------------------------------------ *)
(** * Nonces *)

Lemma nonceOfBytes_value rawBytes acc :
  Forall (fun b => 0 <= b < 256) rawBytes ->
  fold_left (fun nonce byte => Z.lor (Z.shiftl nonce 8) byte) rawBytes acc
  = fold_left (fun a b => a * 256 + b) rawBytes acc.
Proof.
  intros H. revert acc. induction H as [|b l Hb _ IH]; intros acc; [reflexivity |].
  cbn [fold_left]. now rewrite lor_shift_byte, IH.
Qed.

Lemma bigEndian_of_bytes l :
  Forall (fun b => 0 <= b < 256) l ->
  Spec.bigEndian (List.length l) (fold_left (fun a b => a * 256 + b) l 0) = l.
Proof.
  induction l as [|b l IH] using rev_ind; intros H; [reflexivity |].
  apply Forall_app in H. destruct H as [Hl Hb]. inversion Hb as [|? ? Hb0 _]; subst.
  rewrite length_app, Nat.add_1_r, fold_left_app. cbn [fold_left List.length].
  rewrite bigEndian_snoc.
  rewrite Z.div_add_l, (Z.div_small b), Z.add_0_r by lia.
  rewrite Z.add_comm, Z.mod_add, (Z.mod_small b) by lia.
  now rewrite IH.
Qed.

(** X6. The eight random bytes of the SHA-256 [zkCommit] are, unchanged
    and in order, bytes 4..12 of the preimage: the nonce folded from them
    writes them back big-endian, and the commitment is the digest of the
    target's four bytes followed by the random bytes. *)
Theorem random_bytes_are_the_nonce_bytes rawBytes now st tgt sid rnd ph :
  List.length rawBytes = 8%nat ->
  Forall (fun b => 0 <= b < 256) rawBytes ->
  Spec.bigEndian 8 (nonceOfBytes rawBytes) = rawBytes
  /\ exists entry st',
       zkCommit webcrypto_digest rawBytes now st tgt sid rnd ph = Normal (entry, st')
       /\ commitment entry
          = append "0x" (Spec.lowerHex
                           (SHA256.digest (Spec.bigEndian 4 (tgt mod 2 ^ 32) ++ rawBytes))).
Proof.
  intros Hlen Hb.
  assert (H8 : Spec.bigEndian 8 (nonceOfBytes rawBytes) = rawBytes).
  { unfold nonceOfBytes. rewrite nonceOfBytes_value by assumption.
    rewrite <- Hlen. now apply bigEndian_of_bytes. }
  split; [exact H8 |].
  unfold zkCommit. rewrite sha256Commitment_webcrypto. cbn [JS.bind].
  eexists _, _. split; [reflexivity |]. cbn [commitment ToUint32].
  unfold Spec.commit, Spec.preimage. now rewrite H8.
Qed.

Lemma random_bytes_are_the_nonce_bytes_witness :
  Spec.bigEndian 8 (nonceOfBytes [9; 8; 7; 6; 5; 4; 3; 2]) = [9; 8; 7; 6; 5; 4; 3; 2]
  /\ exists entry st',
       zkCommit webcrypto_digest [9; 8; 7; 6; 5; 4; 3; 2] "t" NoItem 3 1 1 1
       = Normal (entry, st')
       /\ commitment entry
          = append "0x" (Spec.lowerHex
                           (SHA256.digest (Spec.bigEndian 4 (3 mod 2 ^ 32)
                                             ++ [9; 8; 7; 6; 5; 4; 3; 2]))).
Proof.
  apply (random_bytes_are_the_nonce_bytes [9; 8; 7; 6; 5; 4; 3; 2]).
  - reflexivity.
  - repeat constructor; lia.
Defined.

(** X7. In the Poseidon [zkCommit] the reduction [nonce % SNARK_FIELD_SIZE]
    never changes the nonce: sixteen bytes fold to a number below 2^128,
    which is below the field prime. *)
Theorem poseidon_nonce_reduction_is_identity rawBytes :
  List.length rawBytes = 16%nat ->
  Forall (fun b => 0 <= b < 256) rawBytes ->
  Z.rem (nonceOfBytes rawBytes) PoseidonRevision.SNARK_FIELD_SIZE = nonceOfBytes rawBytes
  /\ 0 <= nonceOfBytes rawBytes < 2 ^ 128
  /\ 2 ^ 128 < PoseidonRevision.SNARK_FIELD_SIZE.
Proof.
  intros Hlen Hb.
  pose proof (nonceOfBytes_range rawBytes Hb) as H. rewrite Hlen in H.
  change (256 ^ Z.of_nat 16) with (2 ^ 128) in H.
  assert (Hp : 2 ^ 128 < PoseidonRevision.SNARK_FIELD_SIZE) by reflexivity.
  split; [| split; assumption].
  apply Z.rem_small. lia.
Qed.

Lemma poseidon_nonce_reduction_is_identity_witness :
  Z.rem (nonceOfBytes (repeat 255 16)) PoseidonRevision.SNARK_FIELD_SIZE
  = nonceOfBytes (repeat 255 16)
  /\ 0 <= nonceOfBytes (repeat 255 16) < 2 ^ 128
  /\ 2 ^ 128 < PoseidonRevision.SNARK_FIELD_SIZE.
Proof.
  apply (poseidon_nonce_reduction_is_identity (repeat 255 16)).
  - reflexivity.
  - repeat constructor; lia.
Defined.

(** X8. The Poseidon commitment string determines the hash: two
    non-negative hash values with the same string are equal. *)
Theorem poseidon_commitment_string_injective h1 h2 :
  0 <= h1 -> 0 <= h2 ->
  PoseidonRevision.commitmentHex h1 = PoseidonRevision.commitmentHex h2 -> h1 = h2.
Proof. apply commitmentHex_inj. Qed.

Lemma poseidon_commitment_string_injective_witness : 255 = 255.
Proof.
  apply (poseidon_commitment_string_injective 255 255); try lia. reflexivity.
Defined.

(* ------------------------------------------------------------------ *)
(** * More on the browser store *)

Lemma slice_last_short {A} n (l : list A) :
  (List.length l <= n)%nat -> slice_last n l = l.
Proof.
  intros H. unfold slice_last.
  replace (List.length l - n)%nat with 0%nat by lia. reflexivity.
Qed.

(** X9. Saving and loading is a round trip on the last 50 entries: what
    [saveAll] writes, [loadAll] reads back entry for entry, bigint nonces
    included, and a list of at most 50 entries comes back whole. *)
Theorem saveAll_loadAll_roundtrip items :
  Forall inMemory items ->
  loadAll (saveAll items) = slice_last 50 items
  /\ ((List.length items <= 50)%nat -> loadAll (saveAll items) = items).
Proof.
  intros H. split.
  - now apply loadAll_saveAll.
  - intros Hlen. rewrite loadAll_saveAll by assumption. now apply slice_last_short.
Qed.

Lemma saveAll_loadAll_roundtrip_witness :
  loadAll (saveAll [mkZkCommitment "0xab" (AsBigInt 18446744073709551615) 3 7 1 1 "t"])
  = slice_last 50 [mkZkCommitment "0xab" (AsBigInt 18446744073709551615) 3 7 1 1 "t"]
  /\ ((List.length [mkZkCommitment "0xab" (AsBigInt 18446744073709551615) 3 7 1 1 "t"]
       <= 50)%nat ->
      loadAll (saveAll [mkZkCommitment "0xab" (AsBigInt 18446744073709551615) 3 7 1 1 "t"])
      = [mkZkCommitment "0xab" (AsBigInt 18446744073709551615) 3 7 1 1 "t"]).
Proof.
  apply (saveAll_loadAll_roundtrip
           [mkZkCommitment "0xab" (AsBigInt 18446744073709551615) 3 7 1 1 "t"]).
  repeat constructor.
Defined.

Lemma scanBack_app sid rnd ph all more k :
  (k <= List.length all)%nat ->
  scanBack sid rnd ph (all ++ more) k = scanBack sid rnd ph all k.
Proof.
  induction k as [|i IH]; intros Hk; [reflexivity |].
  cbn [scanBack]. rewrite nth_error_app1 by lia.
  destruct (nth_error all i) as [c |]; [| apply IH; lia].
  destruct (sameKey sid rnd ph c); [reflexivity | apply IH; lia].
Qed.

Lemma scanBack_none sid rnd ph all k :
  forallb (fun c => negb (sameKey sid rnd ph c)) all = true ->
  scanBack sid rnd ph all k = None.
Proof.
  intros H. induction k as [|i IH]; [reflexivity |].
  cbn [scanBack]. destruct (nth_error all i) as [c |] eqn:Hi; [| exact IH].
  rewrite forallb_forall in H. specialize (H c (nth_error_In _ _ Hi)).
  apply negb_true_iff in H. now rewrite H.
Qed.

(** X10. Below the cap a [zkCommit] for one key leaves every other key
    alone: with fewer than 50 entries stored, looking up a different
    (session, round, phase) gives the same answer after the call as before. *)
Theorem zkCommit_keeps_other_keys rawBytes now st tgt sid rnd ph sid' rnd' ph' :
  (List.length (loadAll st) < 50)%nat ->
  (sid' =? sid) && (rnd' =? rnd) && (ph' =? ph) = false ->
  exists entry st',
    zkCommit webcrypto_digest rawBytes now st tgt sid rnd ph = Normal (entry, st')
    /\ getStoredCommitment st' sid' rnd' ph' = getStoredCommitment st sid' rnd' ph'.
Proof.
  intros Hlen Hkey.
  destruct (zkCommit_store rawBytes now st tgt sid rnd ph)
    as (e & st' & Hrun & Hs & Hr & Hp & Hload).
  exists e, st'. split; [exact Hrun |].
  unfold getStoredCommitment. rewrite Hload.
  rewrite slice_last_short by (rewrite length_app; cbn; lia).
  rewrite length_app. cbn [List.length]. rewrite Nat.add_1_r. cbn [scanBack].
  rewrite nth_error_app2 by lia. rewrite Nat.sub_diag. cbn [nth_error].
  assert (Hk : sameKey sid' rnd' ph' e = false).
  { unfold sameKey. rewrite Hs, Hr, Hp.
    rewrite (Z.eqb_sym sid), (Z.eqb_sym rnd), (Z.eqb_sym ph). exact Hkey. }
  rewrite Hk. apply scanBack_app. lia.
Qed.

Lemma zkCommit_keeps_other_keys_witness :
  exists entry st',
    zkCommit webcrypto_digest [1; 2; 3; 4; 5; 6; 7; 8] "t" exampleStore 3 7 2 1
    = Normal (entry, st')
    /\ getStoredCommitment st' 7 1 1 = getStoredCommitment exampleStore 7 1 1.
Proof.
  apply (zkCommit_keeps_other_keys [1; 2; 3; 4; 5; 6; 7; 8] "t" exampleStore 3 7 2 1 7 1 1).
  - simpl. lia.
  - reflexivity.
Defined.

Lemma runCommits_keys calls :
  forall st entries st',
    runCommits webcrypto_digest st calls = Normal (entries, st') ->
    forall sid rnd ph,
      forallb (fun c => negb (callKeyIs sid rnd ph c)) calls = true ->
      forallb (fun e => negb (sameKey sid rnd ph e)) entries = true.
Proof.
  induction calls as [|c rest IH]; intros st entries st' Hrun sid rnd ph Hk.
  - cbn in Hrun. apply Normal_inj in Hrun. now inversion Hrun.
  - cbn [runCommits] in Hrun.
    destruct (zkCommit_store (call_rawBytes c) (call_now c) st (call_target c)
                (call_sessionId c) (call_round c) (call_phase c))
      as (e & st1 & He & Hs & Hr & Hp & _).
    rewrite He in Hrun. cbn [JS.bind fst snd] in Hrun.
    destruct (runCommits webcrypto_digest st1 rest) as [[es st2] | err] eqn:Hrest;
      cbn [JS.bind fst snd] in Hrun; [| discriminate Hrun].
    apply Normal_inj in Hrun. inversion Hrun; subst entries st'.
    cbn [forallb] in Hk |- *. apply andb_true_iff in Hk. destruct Hk as [Hc Hk].
    apply andb_true_iff. split.
    + unfold sameKey. rewrite Hs, Hr, Hp. exact Hc.
    + exact (IH st1 es st2 Hrest sid rnd ph Hk).
Qed.

Lemma slice_last_app_long {A} n (X Y : list A) :
  (n <= List.length Y)%nat -> slice_last n (X ++ Y) = slice_last n Y.
Proof.
  intros H. unfold slice_last. rewrite length_app, skipn_app.
  replace (List.length X + List.length Y - n - List.length X)%nat
    with (List.length Y - n)%nat by lia.
  rewrite skipn_all2 by lia. reflexivity.
Qed.

(** X11. Eviction loses commitments: after 50 or more [zkCommit] calls
    for other keys, a key stored earlier is gone and
    [getStoredCommitment] returns null for it, whatever the store held. *)
Theorem fifty_commits_evict_a_key st calls sid rnd ph :
  (50 <= List.length calls)%nat ->
  forallb (fun c => negb (callKeyIs sid rnd ph c)) calls = true ->
  exists entries st',
    runCommits webcrypto_digest st calls = Normal (entries, st')
    /\ getStoredCommitment st' sid rnd ph = None.
Proof.
  intros Hlen Hk.
  destruct (runCommits_store calls st) as (es & st' & Hrun & Hl & Hload).
  exists es, st'. split; [exact Hrun |].
  destruct calls as [|c rest]; [cbn in Hlen; lia |].
  unfold getStoredCommitment. rewrite Hload.
  rewrite slice_last_app_long by lia.
  apply scanBack_none.
  pose proof (runCommits_keys _ _ _ _ Hrun sid rnd ph Hk) as He.
  rewrite forallb_forall in He |- *. intros e Hin. apply He.
  unfold slice_last in Hin.
  rewrite <- (firstn_skipn (List.length es - 50) es). apply in_or_app. now right.
Qed.

Lemma fifty_commits_evict_a_key_witness :
  exists entries st',
    runCommits webcrypto_digest exampleStore
      (repeat (mkCall [1; 2; 3; 4; 5; 6; 7; 8] "t" 3 7 2 1) 50) = Normal (entries, st')
    /\ getStoredCommitment st' 7 1 1 = None.
Proof.
  apply (fifty_commits_evict_a_key exampleStore
           (repeat (mkCall [1; 2; 3; 4; 5; 6; 7; 8] "t" 3 7 2 1) 50) 7 1 1).
  - simpl. lia.
  - reflexivity.
Defined.

(** The entry the example store holds for session 7, round 1 is found
    before those fifty calls. *)
Example exampleStore_lookup :
  option_map target (getStoredCommitment exampleStore 7 1 1) = Some PASS_TARGET.
Proof. reflexivity. Qed.



(* ------------------------------------------------------------------ *)
(** * Labels *)

Lemma nth_error_slotNamesFrom sls : forall j n,
  nth_error (CommitReveal.slotNamesFrom j sls) n
  = option_map (fun sl => slotName sl (j + Z.of_nat n)) (nth_error sls n).
Proof.
  induction sls as [|sl rest IH]; intros j n.
  - destruct n; reflexivity.
  - destruct n as [|n]; cbn [CommitReveal.slotNamesFrom nth_error option_map].
    + now rewrite Z.add_0_r.
    + rewrite IH. destruct (nth_error rest n); cbn [option_map]; [| reflexivity].
      do 2 f_equal. lia.
Qed.

Lemma targetLabel_names_the_seat_aux (g : Game) (i : Z) :
  targetLabel i (CommitReveal.slotNamesFrom 0 (slots g))
  = if i =? PASS_TARGET then "Pass / Abstain"
    else match slotAt g i with
         | Some sl => slotName sl i
         | None => append "Slot #" (toString10 i)
         end.
Proof.
  unfold targetLabel, slotAt, PASS_TARGET.
  destruct (i =? 4294967295); [reflexivity |].
  destruct (i <? 0) eqn:Hneg; [reflexivity |].
  rewrite nth_error_slotNamesFrom.
  destruct (nth_error (slots g) (Z.to_nat i)); cbn [option_map]; [| reflexivity].
  f_equal. apply Z.ltb_ge in Hneg. lia.
Qed.


Lemma append_nonempty a b : b <> "" -> append a b <> "".
Proof. destruct a; cbn; [auto | discriminate]. Qed.

Lemma slotName_nonempty sl i : slotName sl i <> "".
Proof.
  unfold slotName, shortAddr.
  destruct (addr sl) as [a |]; [destruct (String.eqb a "") |]; try discriminate.
  apply append_nonempty. discriminate.
Qed.

Lemma targetLabel_nonempty g i :
  targetLabel i (CommitReveal.slotNamesFrom 0 (slots g)) <> "".
Proof.
  rewrite targetLabel_names_the_seat_aux.
  destruct (i =? PASS_TARGET); [discriminate |].
  destruct (slotAt g i); [apply slotName_nonempty | discriminate].
Qed.

(* ------------------------------------------------------------------ *)
(** * Committing and revealing through the component *)

(** X14. What the component reveals is what it committed: after
    [handleNightCommit(target)] in a round, [handleNightReveal] of the same
    session and round finds the entry in the store and hands
    [revealAction] the same target and the nonce of that commitment, a
    pair that [zkVerify] accepts for the commitment that was submitted. *)
Theorem reveal_matches_commit toLowerCase rawBytes now st sid game tgt :
  List.length rawBytes = 8%nat ->
  Forall (fun b => 0 <= b < 256) rawBytes ->
  0 <= tgt < 2 ^ 32 ->
  exists c st',
    Component.handleNightCommit webcrypto_digest rawBytes now st sid game tgt
    = Normal (c, st')
    /\ Component.handleNightReveal st' sid game = Some (tgt, nonceOfBytes rawBytes)
    /\ c = Spec.commit tgt (nonceOfBytes rawBytes)
    /\ zkVerify webcrypto_digest toLowerCase c (Int tgt) (nonceOfBytes rawBytes)
       = Normal true.
Proof.
  intros Hlen Hb Ht.
  unfold Component.handleNightCommit, Component.handleNightReveal.
  destruct (zkCommit_store rawBytes now st tgt sid (day game) PHASE_NIGHT_COMMIT)
    as (e & st' & Hrun & Hs & Hr & Hp & Hload).
  rewrite Hrun. cbn [JS.bind fst snd].
  exists (commitment e), st'. split; [reflexivity |].
  assert (He : e = mkZkCommitment (Spec.commit tgt (nonceOfBytes rawBytes))
                     (AsBigInt (nonceOfBytes rawBytes)) tgt sid (day game)
                     PHASE_NIGHT_COMMIT now).
  { unfold zkCommit in Hrun. rewrite sha256Commitment_webcrypto in Hrun.
    cbn [JS.bind ToUint32] in Hrun. rewrite (Z.mod_small tgt) in Hrun by lia.
    apply Normal_inj in Hrun. now inversion Hrun. }
  assert (Hfind : getStoredCommitment st' sid (day game) PHASE_NIGHT_COMMIT = Some e).
  { unfold getStoredCommitment. rewrite Hload.
    destruct (slice_last_last 50 (loadAll st) e ltac:(lia)) as [front ->].
    rewrite length_app. cbn [List.length]. rewrite Nat.add_1_r. cbn [scanBack].
    rewrite nth_error_app2 by lia. rewrite Nat.sub_diag. cbn [nth_error].
    unfold sameKey. now rewrite Hs, Hr, Hp, !Z.eqb_refl. }
  rewrite Hfind. rewrite He. cbn [target nonce nonceValue commitment].
  split; [reflexivity | split; [reflexivity |]].
  rewrite sha256_zkVerify_eq, sha256Commitment_webcrypto. cbn [ToUint32].
  rewrite (Z.mod_small tgt) by lia. now rewrite String.eqb_refl.
Qed.

Lemma reveal_matches_commit_witness :
  exists c st',
    Component.handleNightCommit webcrypto_digest [1; 2; 3; 4; 5; 6; 7; 8] "t"
      exampleStore 7 (exampleGame true) 4 = Normal (c, st')
    /\ Component.handleNightReveal st' 7 (exampleGame true)
       = Some (4, nonceOfBytes [1; 2; 3; 4; 5; 6; 7; 8])
    /\ c = Spec.commit 4 (nonceOfBytes [1; 2; 3; 4; 5; 6; 7; 8])
    /\ zkVerify webcrypto_digest asciiToLowerCase c (Int 4)
                (nonceOfBytes [1; 2; 3; 4; 5; 6; 7; 8]) = Normal true.
Proof.
  apply (reveal_matches_commit asciiToLowerCase [1; 2; 3; 4; 5; 6; 7; 8]).
  - reflexivity.
  - repeat constructor; lia.
  - lia.
Defined.

(** X15. The reveal screen offers its button exactly to a seated, living
    player who has not revealed, is no Villager and has a commitment stored
    for this round; then [handleNightReveal] has a target and nonce to
    send, and the label on the card is the one of the stored target. *)
Theorem reveal_button_needs_a_stored_commitment :
  forall st sid game userAddress,
    ((exists label, Screens.revealCard st (Some sid) game userAddress
                    = Screens.Reveal label) <->
     (exists m stored,
         Component.me (Some game) userAddress = Some m
         /\ alive m = true /\ submitted m = false /\ role m <> 1
         /\ getStoredCommitment st sid (day game) PHASE_NIGHT_COMMIT = Some stored))
    /\ (forall label,
           Screens.revealCard st (Some sid) game userAddress = Screens.Reveal label ->
           exists stored,
             getStoredCommitment st sid (day game) PHASE_NIGHT_COMMIT = Some stored
             /\ Component.handleNightReveal st sid game
                = Some (target stored, nonceValue (nonce stored))
             /\ label = targetLabel (target stored)
                          (CommitReveal.slotNamesFrom 0 (slots game))).
Proof.
  intros st sid game user.
  unfold Screens.revealCard, Screens.NightRevealScreen, Component.inGame,
    Component.storedTargetLabel, Component.handleNightReveal, Component.me.
  set (idx := Component.myIdx (Some game) user).
  set (found := getStoredCommitment st sid (day game) PHASE_NIGHT_COMMIT).
  destruct (idx =? -1) eqn:Hidx; cbn [negb].
  { split.
    - split; [intros [l H]; discriminate H | intros (m & s & H & _); discriminate H].
    - intros l H. discriminate H. }
  destruct (slotAt game idx) as [m |]; cbn [Screens.notAlive Screens.hasSubmitted Screens.roleIs].
  2:{ split.
      - split; [intros [l H]; discriminate H | intros (m & s & H & _); discriminate H].
      - intros l H. discriminate H. }
  destruct (alive m) eqn:Ha; cbn [negb].
  2:{ split.
      - split; [intros [l H]; discriminate H |].
        intros (m' & s & H & Ha' & _). injection H as <-. congruence.
      - intros l H. discriminate H. }
  destruct (submitted m) eqn:Hs.
  { split.
    - split; [intros [l H]; discriminate H |].
      intros (m' & s & H & _ & Hs' & _). injection H as <-. congruence.
    - intros l H. discriminate H. }
  destruct (role m =? 1) eqn:Hr.
  { split.
    - split; [intros [l H]; discriminate H |].
      intros (m' & s & H & _ & _ & Hr' & _). injection H as <-.
      apply Z.eqb_eq in Hr. contradiction.
    - intros l H. discriminate H. }
  apply Z.eqb_neq in Hr.
  destruct found as [stored |] eqn:Hf.
  - pose proof (targetLabel_nonempty game (target stored)) as Hne.
    destruct (String.eqb_spec
                (targetLabel (target stored) (CommitReveal.slotNamesFrom 0 (slots game)))
                "") as [E | _]; [contradiction |].
    split.
    + split; [intros _; exists m, stored; auto | intros _; eexists; reflexivity].
    + intros l H. injection H as <-. exists stored. auto.
  - cbn [String.eqb]. split.
    + split; [intros [l H]; discriminate H |].
      intros (m' & s & _ & _ & _ & _ & H). discriminate H.
    + intros l H. discriminate H.
Qed.

(* ------------------------------------------------------------------ *)
(** * The viewer's seat *)

Lemma findIndexFrom_find p sls : forall k, 0 <= k ->
  match find p sls with
  | Some sl =>
      k <= Component.findIndexFrom k p sls
      /\ nth_error sls (Z.to_nat (Component.findIndexFrom k p sls - k)) = Some sl
  | None => Component.findIndexFrom k p sls = -1
  end.
Proof.
  induction sls as [|a rest IH]; intros k Hk; cbn [find Component.findIndexFrom].
  - reflexivity.
  - destruct (p a).
    + rewrite Z.sub_diag. split; [lia | reflexivity].
    + specialize (IH (k + 1) ltac:(lia)). destruct (find p rest); [| exact IH].
      destruct IH as [Hle Hn]. split; [lia |].
      replace (Z.to_nat (Component.findIndexFrom (k + 1) p rest - k))
        with (S (Z.to_nat (Component.findIndexFrom (k + 1) p rest - (k + 1)))) by lia.
      exact Hn.
Qed.

Lemma addrIs_true u sl : Component.addrIs u sl = true -> addr sl = Some u.
Proof.
  unfold Component.addrIs. destruct (addr sl) as [a |]; [| discriminate].
  intros H. apply String.eqb_eq in H. now subst.
Qed.

Lemma viewer_seat g u :
  match CommitReveal.me (Some g) u with
  | Some m =>
      0 <= Component.myIdx (Some g) u
      /\ slotAt g (Component.myIdx (Some g) u) = Some m
      /\ addr m = Some u
      /\ Component.me (Some g) u = Some m
      /\ Component.inGame (Some g) u = true
  | None =>
      Component.myIdx (Some g) u = -1
      /\ Component.me (Some g) u = None
      /\ Component.inGame (Some g) u = false
  end.
Proof.
  unfold CommitReveal.me, Component.me, Component.inGame, Component.myIdx.
  change (find _ (slots g)) with (find (Component.addrIs u) (slots g)).
  pose proof (findIndexFrom_find (Component.addrIs u) (slots g) 0 ltac:(lia)) as H.
  destruct (find (Component.addrIs u) (slots g)) as [m |] eqn:Hf.
  - destruct H as [Hle Hn]. rewrite Z.sub_0_r in Hn.
    assert (Hs : slotAt g (Component.findIndexFrom 0 (Component.addrIs u) (slots g)) = Some m).
    { unfold slotAt. destruct (Z.ltb_spec (Component.findIndexFrom 0 (Component.addrIs u) (slots g)) 0);
        [lia | exact Hn]. }
    destruct (Z.eqb_spec (Component.findIndexFrom 0 (Component.addrIs u) (slots g)) (-1));
      [lia |].
    apply find_some in Hf. destruct Hf as [_ Hf]. apply addrIs_true in Hf. auto.
  - rewrite H. auto.
Qed.

(** X16. The seat the component derives for the viewer,
    [slots[slots.findIndex(sl => sl.addr === userAddress)]], is the first
    slot holding the viewer's address (what [Array.prototype.find] returns);
    the viewer is in the game exactly when there is one, and a bot's slot
    (no address) is never taken for the viewer's. *)
Theorem viewer_seat_is_first_with_their_address :
  forall game userAddress,
    Component.me game userAddress = CommitReveal.me game userAddress
    /\ (Component.inGame game userAddress = true <->
        exists m, Component.me game userAddress = Some m)
    /\ (forall m, Component.me game userAddress = Some m ->
                  addr m = Some userAddress /\ Component.isHuman m = true).
Proof.
  intros [g |] u.
  - pose proof (viewer_seat g u) as H.
    destruct (CommitReveal.me (Some g) u) as [m |].
    + destruct H as (_ & _ & Ha & Hm & Hi). rewrite Hm, Hi.
      split; [reflexivity | split].
      * split; [intros _; now exists m | reflexivity].
      * intros m' E. injection E as <-. split; [exact Ha |].
        unfold Component.isHuman. now rewrite Ha.
    + destruct H as (_ & Hm & Hi). rewrite Hm, Hi.
      split; [reflexivity | split].
      * split; [discriminate | intros [m E]; discriminate E].
      * intros m E. discriminate E.
  - split; [reflexivity | split].
    + split; [discriminate | intros [m E]; discriminate E].
    + intros m E. discriminate E.
Qed.

(* ------------------------------------------------------------------ *)
(** * The action cards *)

Lemma in_indexedFrom sls : forall k sl i,
  In (sl, i) (Screens.indexedFrom k sls) <->
  k <= i /\ nth_error sls (Z.to_nat (i - k)) = Some sl.
Proof.
  induction sls as [|a rest IH]; intros k sl i; cbn [Screens.indexedFrom In].
  - split; [contradiction |]. intros [_ H]. destruct (Z.to_nat (i - k)); discriminate H.
  - rewrite IH. split.
    + intros [E | [Hle Hn]].
      * injection E as -> ->. rewrite Z.sub_diag. split; [lia | reflexivity].
      * split; [lia |].
        replace (Z.to_nat (i - k)) with (S (Z.to_nat (i - (k + 1)))) by lia. exact Hn.
    + intros [Hle Hn]. destruct (Z.eq_dec i k) as [-> | Hne].
      * rewrite Z.sub_diag in Hn. cbn in Hn. injection Hn as ->. now left.
      * right. split; [lia |].
        replace (Z.to_nat (i - k)) with (S (Z.to_nat (i - (k + 1)))) in Hn by lia.
        exact Hn.
Qed.

Lemma in_aliveSeats g sl i :
  In (sl, i) (Screens.aliveSeats g) <-> slotAt g i = Some sl /\ alive sl = true.
Proof.
  unfold Screens.aliveSeats. rewrite filter_In, in_indexedFrom. cbn [fst].
  unfold slotAt. rewrite Z.sub_0_r. destruct (Z.ltb_spec i 0).
  - split; [intros [[? _] _]; lia | intros [? _]; discriminate].
  - tauto.
Qed.

Lemma in_aliveOthers g idx sl i :
  In (sl, i) (Screens.aliveOthers g idx) <->
  slotAt g i = Some sl /\ alive sl = true /\ i <> idx.
Proof.
  unfold Screens.aliveOthers. rewrite filter_In, in_aliveSeats. cbn [snd].
  rewrite negb_true_iff, Z.eqb_neq. tauto.
Qed.

Lemma in_townAlive g sl i :
  In (sl, i) (Screens.townAlive g) <->
  slotAt g i = Some sl /\ alive sl = true /\ role sl <> 0.
Proof.
  unfold Screens.townAlive. rewrite filter_In, in_aliveSeats. cbn [fst].
  rewrite negb_true_iff, Z.eqb_neq. tauto.
Qed.

Lemma card_offers_buttons g u (card : Screens.actionCard) (k : Slot -> Screens.actionCard) :
  (if negb (Component.inGame (Some g) u) then Screens.Spectating
   else if Screens.notAlive (Component.me (Some g) u) then Screens.Eliminated
   else if Screens.hasSubmitted (Component.me (Some g) u) then Screens.Submitted
   else match Component.me (Some g) u with
        | Some m => k m
        | None => Screens.Spectating
        end) = card ->
  card <> Screens.Spectating -> card <> Screens.Eliminated -> card <> Screens.Submitted ->
  exists m, Component.me (Some g) u = Some m
            /\ slotAt g (Component.myIdx (Some g) u) = Some m
            /\ addr m = Some u /\ alive m = true /\ submitted m = false
            /\ k m = card.
Proof.
  intros H N1 N2 N3. pose proof (viewer_seat g u) as V.
  destruct (CommitReveal.me (Some g) u) as [m |].
  - destruct V as (_ & Hs & Ha & Hm & Hi). rewrite Hm, Hi in H.
    cbn [negb Screens.notAlive Screens.hasSubmitted] in H.
    destruct (alive m) eqn:Hal; cbn [negb] in H; [| congruence].
    destruct (submitted m) eqn:Hsub; [congruence |].
    exists m. rewrite Hm. auto 10.
  - destruct V as (_ & _ & Hi). rewrite Hi in H. cbn [negb] in H. congruence.
Qed.

(** X17. The night screen gives target buttons only to a seated, living
    viewer who has not acted and is no Villager, and never the abstain
    button.  Every button is a living seat of the game under its own index;
    the Mafia is never offered a Mafia seat, the Sheriff never its own, and
    the Doctor is offered its own.  A viewer whose role is none of the four
    gets no button at all. *)
Theorem night_targets_are_legal g userAddress targets abstain :
  Screens.nightCard g userAddress = Screens.Choose targets abstain ->
  abstain = false
  /\ exists m,
      Component.me (Some g) userAddress = Some m
      /\ alive m = true /\ submitted m = false /\ role m <> 1
      /\ (forall sl i, In (sl, i) targets ->
            slotAt g i = Some sl /\ alive sl = true
            /\ (role m = 0 -> role sl <> 0)
            /\ (role m = 3 -> i <> Component.myIdx (Some g) userAddress))
      /\ (role m = 2 -> In (m, Component.myIdx (Some g) userAddress) targets)
      /\ (role m <> 0 -> role m <> 2 -> role m <> 3 -> targets = []).
Proof.
  intros H.
  set (idx := Component.myIdx (Some g) userAddress) in *.
  destruct (card_offers_buttons g userAddress (Screens.Choose targets abstain)
              (fun m => if role m =? 1 then Screens.AutoPassing
                        else Screens.Choose
                               ((if role m =? 0 then Screens.townAlive g else [])
                                ++ (if role m =? 2 then Screens.aliveSeats g else [])
                                ++ (if role m =? 3 then Screens.aliveOthers g idx else []))
                               false))
    as (m & Hm & Hs & _ & Hal & Hsub & Hk); try discriminate.
  { rewrite <- H. unfold Screens.nightCard, Screens.NightScreen, Screens.roleIs.
    fold idx. destruct (Component.me (Some g) userAddress); [reflexivity |].
    cbn [Screens.notAlive]. now destruct (negb _). }
  cbn beta in Hk. fold idx in Hs.
  destruct (Z.eqb_spec (role m) 1) as [| Hr1]; [discriminate |].
  injection Hk as <- <-. split; [reflexivity |].
  exists m. repeat (split; [assumption |]).
  split; [| split].
  - intros sl i Hin. apply in_app_or in Hin. destruct Hin as [Hin | Hin].
    { destruct (Z.eqb_spec (role m) 0) as [E |]; [| contradiction].
      apply in_townAlive in Hin. destruct Hin as (? & ? & ?).
      repeat split; auto. lia. }
    apply in_app_or in Hin. destruct Hin as [Hin | Hin].
    { destruct (Z.eqb_spec (role m) 2) as [E |]; [| contradiction].
      apply in_aliveSeats in Hin. destruct Hin as (? & ?).
      repeat split; auto; lia. }
    destruct (Z.eqb_spec (role m) 3) as [E |]; [| contradiction].
    apply in_aliveOthers in Hin. destruct Hin as (? & ? & ?).
    repeat split; auto; lia.
  - intros E. rewrite E. cbn [Z.eqb Pos.eqb app]. rewrite app_nil_r.
    apply in_aliveSeats. auto.
  - intros N0 N2 N3.
    destruct (Z.eqb_spec (role m) 0); [contradiction |].
    destruct (Z.eqb_spec (role m) 2); [contradiction |].
    destruct (Z.eqb_spec (role m) 3); [contradiction |]. reflexivity.
Qed.

Lemma night_targets_are_legal_witness :
  Screens.nightCard (exampleGame true) sheriffAddress
  = Screens.Choose (Screens.aliveOthers (exampleGame true) 4) false
  /\ false = false
  /\ exists m,
      Component.me (Some (exampleGame true)) sheriffAddress = Some m
      /\ alive m = true /\ submitted m = false /\ role m <> 1
      /\ (forall sl i, In (sl, i) (Screens.aliveOthers (exampleGame true) 4) ->
            slotAt (exampleGame true) i = Some sl /\ alive sl = true
            /\ (role m = 0 -> role sl <> 0)
            /\ (role m = 3 -> i <> Component.myIdx (Some (exampleGame true)) sheriffAddress))
      /\ (role m = 2 ->
          In (m, Component.myIdx (Some (exampleGame true)) sheriffAddress)
             (Screens.aliveOthers (exampleGame true) 4))
      /\ (role m <> 0 -> role m <> 2 -> role m <> 3 ->
          Screens.aliveOthers (exampleGame true) 4 = []).
Proof.
  split; [reflexivity |].
  apply (night_targets_are_legal (exampleGame true) sheriffAddress). reflexivity.
Defined.



(** X19. A viewer who still has buttons on the night or the day screen is
    one of the players [pendingCount] counts, so the screen never tells
    them that all humans are ready. *)
Theorem viewer_with_buttons_is_pending g userAddress targets abstain :
  Screens.nightCard g userAddress = Screens.Choose targets abstain
  \/ Screens.dayCard g userAddress = Screens.Choose targets abstain ->
  (1 <= Component.pendingCount g)%nat.
Proof.
  intros H.
  assert (Hm : exists m, In m (slots g) /\ addr m = Some userAddress
                         /\ alive m = true /\ submitted m = false).
  { set (idx := Component.myIdx (Some g) userAddress).
    destruct H as [H | H].
    - destruct (card_offers_buttons g userAddress (Screens.Choose targets abstain)
                  (fun m => if role m =? 1 then Screens.AutoPassing
                            else Screens.Choose
                                   ((if role m =? 0 then Screens.townAlive g else [])
                                    ++ (if role m =? 2 then Screens.aliveSeats g else [])
                                    ++ (if role m =? 3 then Screens.aliveOthers g idx else []))
                                   false))
        as (m & _ & Hs & Ha & Hal & Hsub & _); try discriminate.
      { rewrite <- H. unfold Screens.nightCard, Screens.NightScreen, Screens.roleIs.
        fold idx. destruct (Component.me (Some g) userAddress); [reflexivity |].
        cbn [Screens.notAlive]. now destruct (negb _). }
      exists m. repeat split; auto. unfold slotAt in Hs.
      destruct (_ <? 0); [discriminate |]. eapply nth_error_In; eassumption.
    - destruct (card_offers_buttons g userAddress (Screens.Choose targets abstain)
                  (fun _ => Screens.Choose (Screens.aliveOthers g idx) true))
        as (m & _ & Hs & Ha & Hal & Hsub & _); try discriminate.
      { rewrite <- H. unfold Screens.dayCard, Screens.DayScreen. fold idx.
        destruct (Component.me (Some g) userAddress); [reflexivity |].
        cbn [Screens.notAlive]. now destruct (negb _). }
      exists m. repeat split; auto. unfold slotAt in Hs.
      destruct (_ <? 0); [discriminate |]. eapply nth_error_In; eassumption. }
  destruct Hm as (m & Hin & Ha & Hal & Hsub).
  unfold Component.pendingCount.
  assert (Hf : In m (filter (fun sl => Component.isHuman sl && alive sl && negb (submitted sl))
                            (slots g))).
  { apply filter_In. split; [exact Hin |].
    unfold Component.isHuman. now rewrite Ha, Hal, Hsub. }
  destruct (filter _ (slots g)); [contradiction | cbn [List.length]; lia].
Qed.

Lemma viewer_with_buttons_is_pending_witness :
  Screens.dayCard (exampleGame true) villagerAddress
  = Screens.Choose (Screens.aliveOthers (exampleGame true) 0) true
  /\ (1 <= Component.pendingCount (exampleGame true))%nat.
Proof.
  split; [reflexivity |].
  apply (viewer_with_buttons_is_pending (exampleGame true) villagerAddress
           (Screens.aliveOthers (exampleGame true) 0) true).
  right. reflexivity.
Defined.

(* ------------------------------------------------------------------ *)
(** * The final list of players *)

Lemma insertStable_dead x D :
  alive (fst x) = false ->
  Forall (fun y => alive (fst y) = false) D ->
  Screens.insertStable Screens.aliveFirst x D = D ++ [x].
Proof.
  intros Hx HD. induction HD as [| y D Hy _ IH]; [reflexivity |].
  cbn [Screens.insertStable app]. unfold Screens.aliveFirst at 1.
  rewrite Hx, Hy. cbn. now rewrite IH.
Qed.

Lemma insertStable_partitioned x A D :
  Forall (fun y => alive (fst y) = true) A ->
  Forall (fun y => alive (fst y) = false) D ->
  Screens.insertStable Screens.aliveFirst x (A ++ D)
  = if alive (fst x) then A ++ x :: D else A ++ D ++ [x].
Proof.
  intros HA HD. induction HA as [| a A Ha _ IH].
  - cbn [app]. destruct (alive (fst x)) eqn:Hx.
    + destruct HD as [| y D Hy _]; [reflexivity |].
      cbn [Screens.insertStable]. unfold Screens.aliveFirst. now rewrite Hx, Hy.
    + now apply insertStable_dead.
  - cbn [app Screens.insertStable]. unfold Screens.aliveFirst at 1. rewrite Ha.
    destruct (alive (fst x)) eqn:Hx; cbn; rewrite IH; reflexivity.
Qed.

Lemma sortStable_partition l : forall A D,
  Forall (fun y => alive (fst y) = true) A ->
  Forall (fun y => alive (fst y) = false) D ->
  fold_left (fun acc x => Screens.insertStable Screens.aliveFirst x acc) l (A ++ D)
  = (A ++ filter (fun x => alive (fst x)) l)
      ++ (D ++ filter (fun x => negb (alive (fst x))) l).
Proof.
  induction l as [| x l IH]; intros A D HA HD; cbn [fold_left filter].
  - now rewrite !app_nil_r.
  - rewrite insertStable_partitioned by assumption.
    destruct (alive (fst x)) eqn:Hx; cbn [negb].
    + change (A ++ x :: D) with (A ++ [x] ++ D). rewrite app_assoc.
      rewrite IH; [| apply Forall_app; split; [assumption | now constructor] | assumption].
      now rewrite <- (app_assoc A [x]).
    + rewrite IH; [| assumption | apply Forall_app; split; [assumption | now constructor]].
      now rewrite <- (app_assoc D).
Qed.

Lemma length_indexedFrom sls : forall k,
  List.length (Screens.indexedFrom k sls) = List.length sls.
Proof. induction sls as [| a rest IH]; intros k; cbn; [reflexivity | now rewrite IH]. Qed.

(** X20. The final list of [GameOverScreen] is the living seats in seat
    order followed by the dead seats in seat order: sorting loses and
    repeats no slot, and every entry keeps the index its slot has in the
    game, the one [slotName] is called with. *)
Theorem sortedSlots_is_living_then_dead :
  forall g,
    Screens.sortedSlots g
    = Screens.aliveSeats g
        ++ filter (fun x => negb (alive (fst x))) (Screens.indexedFrom 0 (slots g))
    /\ (forall sl i, In (sl, i) (Screens.sortedSlots g) <-> slotAt g i = Some sl)
    /\ List.length (Screens.sortedSlots g) = List.length (slots g).
Proof.
  intros g.
  assert (E : Screens.sortedSlots g
              = Screens.aliveSeats g
                  ++ filter (fun x => negb (alive (fst x)))
                       (Screens.indexedFrom 0 (slots g))).
  { unfold Screens.sortedSlots, Screens.sortStable, Screens.aliveSeats.
    exact (sortStable_partition (Screens.indexedFrom 0 (slots g)) [] []
             (Forall_nil _) (Forall_nil _)). }
  split; [exact E | split].
  - intros sl i. rewrite E, in_app_iff, in_aliveSeats, filter_In, in_indexedFrom.
    cbn [fst]. unfold slotAt. rewrite Z.sub_0_r.
    destruct (Z.ltb_spec i 0).
    + split; [intros [[? _] | [[? _] _]]; [discriminate | lia] | discriminate].
    + destruct (alive sl); cbn [negb]; tauto.
  - rewrite E, length_app. unfold Screens.aliveSeats. clear E.
    rewrite <- (length_indexedFrom (slots g) 0).
    induction (Screens.indexedFrom 0 (slots g)) as [| x l IH]; [reflexivity |].
    cbn [filter]. destruct (alive (fst x)); cbn [negb List.length] in *; lia.
Qed.

(* ------------------------------------------------------------------ *)
(** * isErrCode *)

Lemma includes_empty msg : PlaintextComponent.includes msg "" = true.
Proof. unfold PlaintextComponent.includes. destruct msg; reflexivity. Qed.

Lemma nameAt_off_the_keys c : c < 1 \/ 7 < c -> PlaintextComponent.nameAt c = "".
Proof.
  intros H. unfold PlaintextComponent.nameAt. destruct (Z.ltb_spec c 1); [reflexivity |].
  assert (Hn : nth_error PlaintextComponent.errorNames (Z.to_nat (c - 1)) = None).
  { apply nth_error_None. cbn [List.length PlaintextComponent.errorNames]. lia. }
  now rewrite Hn.
Qed.

(** X21. [isErrCode] looks a code up by its position among the seven keys
    of the literal.  A code that is no such position (among them 9, 10 and
    11, values of the literal) finds no name, the search string falls back
    to the empty one, which every message includes: the answer is [true]
    whatever the message says. *)
Theorem isErrCode_accepts_any_message_off_the_keys msg codes c :
  In c codes -> c < 1 \/ 7 < c ->
  PlaintextComponent.isErrCode msg codes = true.
Proof.
  intros Hin Hc. unfold PlaintextComponent.isErrCode.
  apply existsb_exists. exists c. split; [exact Hin |].
  rewrite (nameAt_off_the_keys c Hc), includes_empty. apply orb_true_r.
Qed.

Lemma isErrCode_accepts_any_message_off_the_keys_witness :
  PlaintextComponent.isErrCode "Transaction simulation succeeded" [9] = true.
Proof.
  apply (isErrCode_accepts_any_message_off_the_keys
           "Transaction simulation succeeded" [9] 9).
  - left. reflexivity.
  - right. lia.
Defined.

(** The name a position stands for is the key written at it, not the key
    whose value is the code: 6 is the value of [AlreadyActed] and the
    position of [NotCreator]. *)
Example isErrCode_by_position :
  PlaintextComponent.isErrCode "Error(Contract, NotCreator)" [6] = true
  /\ PlaintextComponent.isErrCode "Error(Contract, AlreadyActed)" [6] = false
  /\ PlaintextComponent.isErrCode "Error(Contract, #6)" [6] = true.
Proof. repeat split. Qed.

(* ------------------------------------------------------------------ *)
(** * When the panels throw *)

Lemma ROLE_META_defined r :
  (exists rm, ROLE_META r = Some rm) <-> 0 <= r <= 3.
Proof.
  split.
  - intros [rm H]. destruct r as [| p | p]; [lia | | discriminate H].
    destruct p as [[p | p |] | [p | p |] |]; cbn in H; try discriminate H; lia.
  - intros H. assert (E : r = 0 \/ r = 1 \/ r = 2 \/ r = 3) by lia.
    destruct E as [-> | [-> | [-> | ->]]]; eexists; reflexivity.
Qed.

Lemma bind_returns {A B} (c : completion A) (k : A -> completion B) :
  (exists b, JS.bind c k = Normal b) <->
  (exists a, c = Normal a /\ exists b, k a = Normal b).
Proof.
  destruct c as [a | e]; cbn [JS.bind].
  - split; [intros H; now exists a | intros (a' & E & H); now injection E as <-].
  - split; [intros [b H]; discriminate H | intros (a & E & _); discriminate E].
Qed.

Lemma plaintext_killedLine_returns g :
  (exists l, Plaintext.killedLine g = Normal l) <->
  (forall k, last_killed g = Some k -> exists sl, slotAt g k = Some sl).
Proof.
  unfold Plaintext.killedLine. destruct (last_killed g) as [k |].
  - destruct (slotAt g k) as [sl |] eqn:Hs.
    + split; [intros _ k' E; injection E as <-; eauto | intros _; eexists; reflexivity].
    + split; [intros [l H]; discriminate H |].
      intros H. destruct (H k eq_refl) as [sl Hsl]. congruence.
  - split; [intros _ k E; discriminate E | intros _; eexists; reflexivity].
Qed.

Lemma plaintext_investigatedLine_returns g :
  (exists l, Plaintext.investigatedLine g = Normal l) <->
  (forall k, last_investigated g = Some k -> exists sl, slotAt g k = Some sl).
Proof.
  unfold Plaintext.investigatedLine. destruct (last_investigated g) as [k |].
  - destruct (slotAt g k) as [sl |] eqn:Hs.
    + split; [intros _ k' E; injection E as <-; eauto | intros _; eexists; reflexivity].
    + split; [intros [l H]; discriminate H |].
      intros H. destruct (H k eq_refl) as [sl Hsl]. congruence.
  - split; [intros _ k E; discriminate E | intros _; eexists; reflexivity].
Qed.

Lemma plaintext_votedOutLine_returns g :
  (exists l, Plaintext.votedOutLine g = Normal l) <->
  (forall k, last_voted_out g = Some k ->
             exists sl, slotAt g k = Some sl /\ 0 <= role sl <= 3).
Proof.
  unfold Plaintext.votedOutLine. destruct (last_voted_out g) as [k |].
  - destruct (slotAt g k) as [sl |] eqn:Hs.
    + pose proof (ROLE_META_defined (role sl)) as R.
      destruct (ROLE_META (role sl)) as [rm |].
      * split; [| intros _; eexists; reflexivity].
        intros _ k' E. injection E as <-. exists sl. split; [exact Hs |].
        apply R. now exists rm.
      * split; [intros [l H]; discriminate H |].
        intros H. destruct (H k eq_refl) as [sl' [Hsl Hr]].
        assert (sl' = sl) by congruence. subst sl'.
        destruct (proj2 R Hr) as [rm Hrm]. discriminate Hrm.
    + split; [intros [l H]; discriminate H |].
      intros H. destruct (H k eq_refl) as [sl [Hsl _]]. congruence.
  - split; [intros _ k E; discriminate E | intros _; eexists; reflexivity].
Qed.

Lemma commitReveal_votedOutLine_returns g :
  (exists l, CommitReveal.votedOutLine g = Normal l) <->
  (forall k sl, last_voted_out g = Some k -> slotAt g k = Some sl ->
                0 <= role sl <= 3).
Proof.
  unfold CommitReveal.votedOutLine. destruct (last_voted_out g) as [k |].
  - destruct (slotAt g k) as [sl |] eqn:Hs.
    + pose proof (ROLE_META_defined (role sl)) as R.
      destruct (ROLE_META (role sl)) as [rm |].
      * split; [| intros _; eexists; reflexivity].
        intros _ k' sl' E Hs'. injection E as <-.
        assert (sl' = sl) by congruence. subst sl'. apply R. now exists rm.
      * split; [intros [l H]; discriminate H |].
        intros H. destruct (proj2 R (H k sl eq_refl Hs)) as [rm Hrm]. discriminate Hrm.
    + split; [| intros _; eexists; reflexivity].
      intros _ k' sl E Hs'. injection E as <-. congruence.
  - split; [intros _ k sl E; discriminate E | intros _; eexists; reflexivity].
Qed.

(** X22. The commit-reveal panel skips the line of a seat index with no
    slot behind it and throws only when the slot voted out has a role that
    is none of the four; the plaintext panel reads [slots[k]] unguarded and
    returns only when each of the three indices set has a slot, the one
    voted out with one of the four roles. *)
Theorem LastEvent_returns_iff :
  forall st sid userAddress g,
    ((exists p, CommitReveal.LastEvent st sid userAddress (Some g) = Normal p) <->
     (forall k sl, last_voted_out g = Some k -> slotAt g k = Some sl ->
                   0 <= role sl <= 3))
    /\ ((exists p, Plaintext.LastEvent (Some g) = Normal p) <->
        (forall k, last_killed g = Some k -> exists sl, slotAt g k = Some sl)
        /\ (forall k, last_investigated g = Some k -> exists sl, slotAt g k = Some sl)
        /\ (forall k, last_voted_out g = Some k ->
                      exists sl, slotAt g k = Some sl /\ 0 <= role sl <= 3)).
Proof.
  intros st sid u g. split.
  - unfold CommitReveal.LastEvent. rewrite bind_returns.
    rewrite <- commitReveal_votedOutLine_returns.
    split; [intros (l & E & _); now exists l |].
    intros [l E]. exists l. split; [exact E | eexists; reflexivity].
  - unfold Plaintext.LastEvent. rewrite bind_returns.
    rewrite <- plaintext_killedLine_returns, <- plaintext_investigatedLine_returns,
      <- plaintext_votedOutLine_returns.
    split.
    + intros (l1 & E1 & H). apply bind_returns in H. destruct H as (l2 & E2 & H).
      apply bind_returns in H. destruct H as (l3 & E3 & _).
      split; [now exists l1 | split; [now exists l2 | now exists l3]].
    + intros ([l1 E1] & [l2 E2] & [l3 E3]). exists l1. split; [exact E1 |].
      rewrite E2, E3. cbn [JS.bind]. eexists; reflexivity.
Qed.


